(** * FrictionLab: the per-tick friction engine of [App.tsx]

    A shallow embedding of the simulation core of the FrictionLab
    application: the surface table of [constants.ts], the data model of
    [types.ts], and from [App.tsx] the functions [resetSimulation],
    [handleFrictionChange] and the animation callback [loop].

    Numbers.  The engine is modelled twice.  In the first model a JavaScript
    [number] is an exact rational [Q]: it carries the invariants of the
    engine (signs, bounds, monotonicity, which branch a tick takes), which do
    not depend on how binary64 rounds.  Rationals are compared with [Qeq]
    ([==]); a field that the code copies from the previous state is equal to
    it on the nose ([=]).  Division only occurs as [netForce / params.mass];
    every statement that depends on its value assumes [0 < mass] (the mass
    entry of the controls clamps to [[1, 1000]]), since [x / 0] is [0] in [Q]
    but not in JavaScript.  In the second model, the module [B64], a
    [number] is an IEEE 754 binary64 float: it carries the statements whose
    outcome depends on the rounding of a product or a sum. *)

From Stdlib Require Import QArith Qround Qminmax Qabs ZArith List Bool String Lia Lqa.
From Stdlib Require Import Floats.
Import ListNotations.

Set Warnings "-inexact-float".

Local Open Scope Q_scope.

(** ** Number comparisons, as booleans *)

Definition Qlt_bool (x y : Q) : bool := negb (Qle_bool y x).
Definition Qgt_bool (x y : Q) : bool := Qlt_bool y x.
Definition Qge_bool (x y : Q) : bool := Qle_bool y x.

(** ** types.ts *)

Inductive SurfaceType : Type := ICE | NORMAL | ROUGH.

Inductive ForceMode : Type := Continuous | Impulse | Timed | Distance.

Inductive Status : Type := static | moving | finished.

Definition SurfaceType_eqb (a b : SurfaceType) : bool :=
  match a, b with
  | ICE, ICE | NORMAL, NORMAL | ROUGH, ROUGH => true
  | _, _ => false
  end.

Definition Status_eqb (a b : Status) : bool :=
  match a, b with
  | static, static | moving, moving | finished, finished => true
  | _, _ => false
  end.

Record SurfaceConfig : Type := mkSurface {
  type : SurfaceType;
  staticFrictionCoeff : Q;        (* mu_s *)
  kineticFrictionCoeff : Q;       (* mu_k *)
  frictionRange : Q * Q;          (* [min, max] for kinetic friction *)
  color : string;
  description : string
}.

Record SimulationState : Type := mkState {
  id : SurfaceType;
  position : Q;
  velocity : Q;
  acceleration : Q;
  timeElapsed : Q;
  isFinished : bool;
  status : Status;
  frictionForce : Q;
  currentAppliedForce : Q
}.

Record SimulationParams : Type := mkParams {
  mass : Q;
  distance : Q;
  appliedForce : Q;
  forceMode : ForceMode;
  forceDuration : Q;
  forceDistanceLimit : Q
}.

(** ** constants.ts

    The file holds two revisions of the table and of the initial
    parameters; the second one is taken (ice with mu_s = 0.2, a mass of
    10 kg). *)

Definition GRAVITY : Q := 981 # 100.

Definition SURFACES : list SurfaceConfig :=
  [ mkSurface ICE (2 # 10) (1 # 10) (1 # 10, 3 # 10)
      "bg-cyan-200 border-cyan-400"
      "Very smooth surface with minimal resistance.";
    mkSurface NORMAL (4 # 10) (3 # 10) (3 # 10, 6 # 10)
      "bg-slate-300 border-slate-500"
      "Standard floor surface like wood or tile.";
    mkSurface ROUGH (7 # 10) (6 # 10) (6 # 10, 1)
      "bg-orange-200 border-orange-500"
      "High friction surface similar to sandpaper or heavy rubber." ].

Definition INITIAL_PARAMS : SimulationParams :=
  mkParams 10 500 150 Continuous 5 100.

(** ** App.tsx: module constants *)

Definition SPEED_MULTIPLIER : Q := 5.
Definition IMPULSE_DURATION : Q := 1 # 2.

(** ** App.tsx: [resetSimulation] *)

Definition resetSimulation (surfaceConfigs : list SurfaceConfig)
    (currentParams : SimulationParams) : list SimulationState :=
  map (fun s =>
         {| id := type s;
            position := 0;
            velocity := 0;
            acceleration := 0;
            timeElapsed := 0;
            isFinished := false;
            status := static;
            frictionForce := 0;
            currentAppliedForce := appliedForce currentParams |})
      surfaceConfigs.

(** ** App.tsx: [handleFrictionChange]

    [toFixed2 x] is [parseFloat(x.toFixed(2))]: the multiple of 1/100
    nearest to [x]; of two equally near ones [toFixed] takes the larger in
    magnitude (it rounds [|x|] and puts the sign back). *)

Definition toFixed2 (x : Q) : Q :=
  if Qlt_bool x 0
  then - (Qfloor ((- x) * 100 + (1 # 2)) # 100)
  else Qfloor (x * 100 + (1 # 2)) # 100.

Definition handleFrictionChange (type0 : SurfaceType) (newKinetic : Q)
    (prev : list SurfaceConfig) : list SurfaceConfig :=
  map (fun s =>
         if SurfaceType_eqb (type s) type0
         then {| type := type s;
                 staticFrictionCoeff := toFixed2 (newKinetic + (1 # 10));
                 kineticFrictionCoeff := newKinetic;
                 frictionRange := frictionRange s;
                 color := color s;
                 description := description s |}
         else s)
      prev.

(** ** App.tsx: the animation callback [loop]

    [loop] is a closure created by one render of the component: it reads the
    [params], [surfaceConfigs] and [isRunning] of that render.  They are the
    variables of this section. *)

Section Render.

Variable params : SimulationParams.
Variable surfaceConfigs : list SurfaceConfig.
Variable isRunning : bool.

(** The [switch] on [params.forceMode]. *)
Definition isForceActive (state : SimulationState) : bool :=
  match forceMode params with
  | Continuous => true
  | Impulse => Qlt_bool (timeElapsed state) IMPULSE_DURATION
  | Timed => Qlt_bool (timeElapsed state) (forceDuration params)
  | Distance => Qlt_bool (position state) (forceDistanceLimit params)
  end.

Definition pushForce (state : SimulationState) : Q :=
  if isForceActive state then appliedForce params else 0.

Definition normalForce : Q := mass params * GRAVITY.

Definition maxStaticFriction (surface : SurfaceConfig) : Q :=
  staticFrictionCoeff surface * normalForce.

Definition kineticFriction (surface : SurfaceConfig) : Q :=
  kineticFrictionCoeff surface * normalForce.

(** The body of the [map] callback once [surface] has been found: the three
    branches on [state.status] and the object that is returned.  The local
    [allFinished] is assigned in the source but never read, and is left
    out. *)
Definition advance (surface : SurfaceConfig) (simStep : Q)
    (state : SimulationState) : SimulationState :=
  let pushForce := pushForce state in
  match status state with
  | static =>
      if Qgt_bool pushForce (maxStaticFriction surface)
      then (* breaks free *)
        {| id := id state;
           status := moving;
           acceleration := 0;
           velocity := velocity state;
           position := position state;
           timeElapsed := timeElapsed state;
           isFinished := Status_eqb moving finished;
           frictionForce := kineticFriction surface;
           currentAppliedForce := pushForce |}
      else (* stuck *)
        {| id := id state;
           status := static;
           acceleration := 0;
           velocity := velocity state;
           position := position state;
           timeElapsed := timeElapsed state;
           isFinished := Status_eqb static finished;
           frictionForce := if Qeq_bool pushForce 0 then 0 else pushForce;
           currentAppliedForce := pushForce |}
  | moving =>
      let netForce := pushForce - kineticFriction surface in
      let newAcc := netForce / mass params in
      let newVel := velocity state + newAcc * simStep in
      let stopped :=
        Qle_bool newVel 0 && Qle_bool pushForce (kineticFriction surface) in
      let newVel := if stopped then 0 else newVel in
      let newAcc := if stopped then 0 else newAcc in
      let newStatus := if stopped then finished else moving in
      let newPos := position state + newVel * simStep in
      let newTime := timeElapsed state + simStep in
      let arrived := Qge_bool newPos (distance params) in
      let newPos := if arrived then distance params else newPos in
      let newStatus := if arrived then finished else newStatus in
      {| id := id state;
         status := newStatus;
         acceleration := newAcc;
         velocity := newVel;
         position := newPos;
         timeElapsed := newTime;
         isFinished := Status_eqb newStatus finished;
         frictionForce := kineticFriction surface;
         currentAppliedForce := pushForce |}
  | finished =>
      {| id := id state;
         status := finished;
         acceleration := 0;
         velocity := velocity state;
         position := position state;
         timeElapsed := timeElapsed state;
         isFinished := Status_eqb finished finished;
         frictionForce := 0;
         currentAppliedForce := pushForce |}
  end.

(** [surfaceConfigs.find(s => s.type === state.id)]. *)
Definition findSurface (i : SurfaceType) : option SurfaceConfig :=
  find (fun s => SurfaceType_eqb (type s) i) surfaceConfigs.

(** The whole [map] callback.  A finished state is returned as it is, before
    anything is computed.  [None] is the [TypeError] raised when [find]
    returns [undefined] and a coefficient is read from it. *)
Definition stepState (simStep : Q) (state : SimulationState)
  : option SimulationState :=
  if isFinished state then Some state
  else match findSurface (id state) with
       | Some surface => Some (advance surface simStep state)
       | None => None
       end.

(** [prevStates.map(...)]: the first exception aborts the update. *)
Fixpoint tickAll (simStep : Q) (prevStates : list SimulationState)
  : option (list SimulationState) :=
  match prevStates with
  | [] => Some []
  | state :: rest =>
      match stepState simStep state with
      | None => None
      | Some state' =>
          match tickAll simStep rest with
          | None => None
          | Some rest' => Some (state' :: rest')
          end
      end
  end.

(** What one call of [loop] leaves behind: the new [states], the new
    [lastTimeRef.current], the calls of [setIsFinished] and [setIsRunning]
    (if any), and whether another animation frame was requested. *)
Record LoopOutcome : Type := mkOutcome {
  newStates : list SimulationState;
  lastTimeRef : Q;
  setIsFinished : option bool;
  setIsRunning : option bool;
  frameRequested : bool
}.

Definition currentlyMoving (states : list SimulationState) : bool :=
  existsb (fun s => Status_eqb (status s) moving) states.

Definition simStepOf (time lastTime : Q) : Q :=
  let deltaTime := (time - lastTime) / 1000 in
  deltaTime * SPEED_MULTIPLIER.

Definition loop (time : Q) (lastTime : Q) (prevStates : list SimulationState)
  : option LoopOutcome :=
  let simStep := simStepOf time lastTime in
  match tickAll simStep prevStates with
  | None => None
  | Some newStates =>
      if negb (currentlyMoving newStates) && isRunning
      then Some {| newStates := newStates;
                   lastTimeRef := time;
                   setIsFinished := Some true;
                   setIsRunning := Some false;
                   frameRequested := false |}
      else Some {| newStates := newStates;
                   lastTimeRef := time;
                   setIsFinished := None;
                   setIsRunning := None;
                   frameRequested := true |}
  end.

End Render.

(** ** App.tsx and Controls.tsx: starting a run

    The functions [handleStart], [startLoop] and [loop] created by one
    render of the component read that render's [params], [surfaceConfigs],
    [isRunning] and [isFinished]: a [RenderScope].  [Controls] renders the
    Start button only when [isRunning] is false.  A click on it runs
    [handleStart], which calls [startLoop], at once or from a timer:
    [setIsRunning(true)] only asks for a later render, and
    [requestAnimationFrame(loop)] schedules the [loop] of the render that
    was clicked.  When [loop] asks for the next frame it passes [loop], the
    same closure. *)

Record RenderScope : Type := mkScope {
  scopeParams : SimulationParams;
  scopeSurfaceConfigs : list SurfaceConfig;
  scopeIsRunning : bool;
  scopeIsFinished : bool
}.

Definition startButtonRendered (scope : RenderScope) : bool :=
  negb (scopeIsRunning scope).

(** The callback a click on Start schedules, if there is a button to
    click. *)
Definition scheduledLoop (scope : RenderScope)
  : option (Q -> Q -> list SimulationState -> option LoopOutcome) :=
  if startButtonRendered scope
  then Some (loop (scopeParams scope) (scopeSurfaceConfigs scope)
               (scopeIsRunning scope))
  else None.

(** ** App.tsx: [results]

    [SimulationResult] is the interface of types.ts.  Its [finalTime] is
    [Infinity] for a body that has not finished: [None] here. *)

Module SimulationResult.
Record t : Type := mk {
  surface : SurfaceType;
  finalTime : option Q;
  maxVelocity : Q;
  didMove : bool;
  staticFrictionLimit : Q;
  appliedForce : Q;
  forceMode : ForceMode
}.
End SimulationResult.

(** The callback of [states.map] in [results]; [None] is the [TypeError] of
    reading a coefficient from a surface that [find] did not return. *)
Definition resultOf (params : SimulationParams)
    (surfaceConfigs : list SurfaceConfig) (state : SimulationState)
  : option SimulationResult.t :=
  match findSurface surfaceConfigs (id state) with
  | None => None
  | Some surface =>
      let normalForce := mass params * GRAVITY in
      Some {| SimulationResult.surface := id state;
              SimulationResult.finalTime :=
                if isFinished state then Some (timeElapsed state) else None;
              SimulationResult.maxVelocity := velocity state;
              SimulationResult.didMove := Qgt_bool (position state) 0;
              SimulationResult.staticFrictionLimit :=
                staticFrictionCoeff surface * normalForce;
              SimulationResult.appliedForce := appliedForce params;
              SimulationResult.forceMode := forceMode params |}
  end.

Fixpoint results (params : SimulationParams)
    (surfaceConfigs : list SurfaceConfig) (states : list SimulationState)
  : option (list SimulationResult.t) :=
  match states with
  | [] => Some []
  | state :: rest =>
      match resultOf params surfaceConfigs state with
      | None => None
      | Some r =>
          match results params surfaceConfigs rest with
          | None => None
          | Some rs => Some (r :: rs)
          end
      end
  end.

(** ** ResultsChart.tsx: [chartData]

    [toFixed1 x] is [Number(x.toFixed(1))], as [toFixed2] with tenths. *)

Definition toFixed1 (x : Q) : Q :=
  if Qlt_bool x 0
  then - (Qfloor ((- x) * 10 + (1 # 2)) # 10)
  else Qfloor (x * 10 + (1 # 2)) # 10.

Module ChartDatum.
Record t : Type := mk {
  name : SurfaceType;
  time : Q;
  velocity : Q;
  staticLimit : Q
}.
End ChartDatum.

Definition chartData (results : list SimulationResult.t)
  : list ChartDatum.t :=
  map (fun r =>
         {| ChartDatum.name := SimulationResult.surface r;
            ChartDatum.time :=
              if SimulationResult.didMove r
              then match SimulationResult.finalTime r with
                   | None => 0
                   | Some finalTime => toFixed2 finalTime
                   end
              else 0;
            ChartDatum.velocity :=
              if SimulationResult.didMove r
              then toFixed2 (SimulationResult.maxVelocity r)
              else 0;
            ChartDatum.staticLimit :=
              toFixed1 (SimulationResult.staticFrictionLimit r) |})
      results.

(** ** Controls.tsx: the parameter handlers

    The argument [parsed] is [parseFloat(e.target.value)]: [None] is [NaN].
    Each handler returns the object it passes to [onParamsChange].  The mass
    and force handlers replace [NaN]; the duration and distance handlers do
    not, and would store it: their [None] is that case, which has no
    counterpart among the rationals. *)

Module Controls.

Definition handleMassChange (parsed : option Q) (params : SimulationParams)
  : SimulationParams :=
  let val := match parsed with Some v => v | None => 1 end in
  let val := if Qgt_bool val 1000 then 1000 else val in
  let val := if Qlt_bool val 1 then 1 else val in
  {| mass := val;
     distance := distance params;
     appliedForce := appliedForce params;
     forceMode := forceMode params;
     forceDuration := forceDuration params;
     forceDistanceLimit := forceDistanceLimit params |}.

Definition handleForceChange (parsed : option Q) (params : SimulationParams)
  : SimulationParams :=
  let val := match parsed with Some v => v | None => 0 end in
  let val := if Qgt_bool val 2000 then 2000 else val in
  let val := if Qlt_bool val 0 then 0 else val in
  {| mass := mass params;
     distance := distance params;
     appliedForce := val;
     forceMode := forceMode params;
     forceDuration := forceDuration params;
     forceDistanceLimit := forceDistanceLimit params |}.

Definition handleModeChange (mode : ForceMode) (params : SimulationParams)
  : SimulationParams :=
  {| mass := mass params;
     distance := distance params;
     appliedForce := appliedForce params;
     forceMode := mode;
     forceDuration := forceDuration params;
     forceDistanceLimit := forceDistanceLimit params |}.

Definition handleDurationChange (parsed : option Q)
    (params : SimulationParams) : option SimulationParams :=
  match parsed with
  | None => None
  | Some val =>
      let val := if Qlt_bool val (1 # 10) then 1 # 10 else val in
      Some {| mass := mass params;
              distance := distance params;
              appliedForce := appliedForce params;
              forceMode := forceMode params;
              forceDuration := val;
              forceDistanceLimit := forceDistanceLimit params |}
  end.

Definition handleDistanceChange (parsed : option Q)
    (params : SimulationParams) : option SimulationParams :=
  match parsed with
  | None => None
  | Some val =>
      let val := if Qlt_bool val 1 then 1 else val in
      Some {| mass := mass params;
              distance := distance params;
              appliedForce := appliedForce params;
              forceMode := forceMode params;
              forceDuration := forceDuration params;
              forceDistanceLimit := val |}
  end.

End Controls.

(** ** Track.tsx: what a track shows of a body

    The revision of the component that takes [showForceValues], the one
    [App.tsx] renders. *)

Inductive Emotion : Type := idle | happy | sad | neutral | ecstatic.

Module Track.

Definition VISUAL_PADDING_PERCENT : Q := 15.
Definition VISUAL_WIDTH_PERCENT : Q := 100 - VISUAL_PADDING_PERCENT * 2.

Definition progressFraction (params : SimulationParams)
    (state : SimulationState) : Q :=
  Qmin (position state / distance params) 1.

Definition visualLeft (params : SimulationParams) (state : SimulationState)
  : Q :=
  VISUAL_PADDING_PERCENT + progressFraction params state * VISUAL_WIDTH_PERCENT.

Definition normalForce (params : SimulationParams) : Q :=
  mass params * (981 # 100).

Definition fStaticMax (params : SimulationParams) (surface : SurfaceConfig)
  : Q :=
  staticFrictionCoeff surface * normalForce params.

Definition emotion (params : SimulationParams) (surface : SurfaceConfig)
    (state : SimulationState) : Emotion :=
  let appForce := currentAppliedForce state in
  if Status_eqb (status state) finished then ecstatic
  else if Qgt_bool appForce 0 then
    if Qgt_bool appForce (fStaticMax params surface + (1 # 10)) then happy
    else if Qle_bool (Qabs (appForce - fStaticMax params surface)) (1 # 10)
    then neutral
    else sad
  else idle.

Definition netForce (state : SimulationState) : Q :=
  match status state with
  | moving => currentAppliedForce state - frictionForce state
  | static => 0
  | finished => 0
  end.

End Track.

(** * The same code on binary64 numbers

    Where the outcome of the code depends on how a product, a sum or a
    difference is rounded (the breakaway threshold, the rounding of the
    static coefficient), the exact model above does not decide it.  This
    module repeats the data model, [handleFrictionChange] and the callback
    of [loop] with the numbers of JavaScript themselves: IEEE 754 binary64,
    the primitive floats of Rocq.  Operators: [a > b] is [b <? a], [a >= b]
    is [b <=? a], [a === b] is [a =? b]. *)

Module B64.

Local Open Scope float_scope.

Record SurfaceConfig : Type := mkSurface {
  type : SurfaceType;
  staticFrictionCoeff : float;
  kineticFrictionCoeff : float;
  frictionRange : float * float;
  color : string;
  description : string
}.

Record SimulationState : Type := mkState {
  id : SurfaceType;
  position : float;
  velocity : float;
  acceleration : float;
  timeElapsed : float;
  isFinished : bool;
  status : Status;
  frictionForce : float;
  currentAppliedForce : float
}.

Record SimulationParams : Type := mkParams {
  mass : float;
  distance : float;
  appliedForce : float;
  forceMode : ForceMode;
  forceDuration : float;
  forceDistanceLimit : float
}.

Definition GRAVITY : float := 9.81.

Definition SURFACES : list SurfaceConfig :=
  [ mkSurface ICE 0.2 0.1 (0.1, 0.3)
      "bg-cyan-200 border-cyan-400"
      "Very smooth surface with minimal resistance.";
    mkSurface NORMAL 0.4 0.3 (0.3, 0.6)
      "bg-slate-300 border-slate-500"
      "Standard floor surface like wood or tile.";
    mkSurface ROUGH 0.7 0.6 (0.6, 1.0)
      "bg-orange-200 border-orange-500"
      "High friction surface similar to sandpaper or heavy rubber." ].

Definition INITIAL_PARAMS : SimulationParams :=
  mkParams 10 500 150 Continuous 5.0 100.

Definition IMPULSE_DURATION : float := 0.5.

(** [x.toFixed(2)] followed by [parseFloat].  For a finite [x] below 10^21
    in magnitude [toFixed] takes the integer [n] for which [n / 100] is
    nearest to the exact value of [|x|], the larger one of two equally near,
    and prints [n / 100] with the sign of [x]; [parseFloat] reads the
    binary64 number nearest to that decimal.  From 10^21 on, and for the
    infinities and NaN, [toFixed] prints the number as [String] does, and
    [parseFloat] reads the same number back. *)

(** The integer nearest to [m * 2^e * scale], ties upwards. *)
Definition roundHalfUp (m : positive) (e : Z) (scale : Z) : Z :=
  match e with
  | Z0 => Zpos m * scale
  | Zpos p => Zpos m * scale * 2 ^ Zpos p
  | Zneg p => (Zpos m * scale * 2 + 2 ^ Zpos p) / 2 ^ (Zpos p + 1)
  end.

(** The binary64 number nearest to [n / d]. *)
Definition ofRatio (n d : positive) : float :=
  SF2Prim (SFdiv prec emax (S754_finite false n 0) (S754_finite false d 0)).

Definition toFixed2 (x : float) : float :=
  match Prim2SF x with
  | S754_finite s m e =>
      if 1e21 <=? abs x then x
      else
        match roundHalfUp m e 100 with
        | Zpos n => if s then - ofRatio n 100 else ofRatio n 100
        | _ => if s then neg_zero else zero
        end
  | S754_zero _ => zero
  | S754_infinity _ => x
  | S754_nan => x
  end.

Definition handleFrictionChange (type0 : SurfaceType) (newKinetic : float)
    (prev : list SurfaceConfig) : list SurfaceConfig :=
  map (fun s =>
         if SurfaceType_eqb (type s) type0
         then {| type := type s;
                 staticFrictionCoeff := toFixed2 (newKinetic + 0.1);
                 kineticFrictionCoeff := newKinetic;
                 frictionRange := frictionRange s;
                 color := color s;
                 description := description s |}
         else s)
      prev.

Section Render.

Variable params : SimulationParams.
Variable surfaceConfigs : list SurfaceConfig.

Definition isForceActive (state : SimulationState) : bool :=
  match forceMode params with
  | Continuous => true
  | Impulse => timeElapsed state <? IMPULSE_DURATION
  | Timed => timeElapsed state <? forceDuration params
  | Distance => position state <? forceDistanceLimit params
  end.

Definition pushForce (state : SimulationState) : float :=
  if isForceActive state then appliedForce params else 0.

Definition normalForce : float := mass params * GRAVITY.

Definition maxStaticFriction (surface : SurfaceConfig) : float :=
  staticFrictionCoeff surface * normalForce.

Definition kineticFriction (surface : SurfaceConfig) : float :=
  kineticFrictionCoeff surface * normalForce.

Definition advance (surface : SurfaceConfig) (simStep : float)
    (state : SimulationState) : SimulationState :=
  let pushForce := pushForce state in
  match status state with
  | static =>
      if maxStaticFriction surface <? pushForce
      then
        {| id := id state;
           status := moving;
           acceleration := 0;
           velocity := velocity state;
           position := position state;
           timeElapsed := timeElapsed state;
           isFinished := Status_eqb moving finished;
           frictionForce := kineticFriction surface;
           currentAppliedForce := pushForce |}
      else
        {| id := id state;
           status := static;
           acceleration := 0;
           velocity := velocity state;
           position := position state;
           timeElapsed := timeElapsed state;
           isFinished := Status_eqb static finished;
           frictionForce := if pushForce =? 0 then 0 else pushForce;
           currentAppliedForce := pushForce |}
  | moving =>
      let netForce := pushForce - kineticFriction surface in
      let newAcc := netForce / mass params in
      let newVel := velocity state + newAcc * simStep in
      let stopped :=
        (newVel <=? 0) && (pushForce <=? kineticFriction surface) in
      let newVel := if stopped then 0 else newVel in
      let newAcc := if stopped then 0 else newAcc in
      let newStatus := if stopped then finished else moving in
      let newPos := position state + newVel * simStep in
      let newTime := timeElapsed state + simStep in
      let arrived := distance params <=? newPos in
      let newPos := if arrived then distance params else newPos in
      let newStatus := if arrived then finished else newStatus in
      {| id := id state;
         status := newStatus;
         acceleration := newAcc;
         velocity := newVel;
         position := newPos;
         timeElapsed := newTime;
         isFinished := Status_eqb newStatus finished;
         frictionForce := kineticFriction surface;
         currentAppliedForce := pushForce |}
  | finished =>
      {| id := id state;
         status := finished;
         acceleration := 0;
         velocity := velocity state;
         position := position state;
         timeElapsed := timeElapsed state;
         isFinished := Status_eqb finished finished;
         frictionForce := 0;
         currentAppliedForce := pushForce |}
  end.

Definition findSurface (i : SurfaceType) : option SurfaceConfig :=
  find (fun s => SurfaceType_eqb (type s) i) surfaceConfigs.

Definition stepState (simStep : float) (state : SimulationState)
  : option SimulationState :=
  if isFinished state then Some state
  else match findSurface (id state) with
       | Some surface => Some (advance surface simStep state)
       | None => None
       end.

End Render.

(** What [handleFrictionChange] does to one entry of the table. *)
Definition adjusted (type0 : SurfaceType) (newKinetic : float)
    (s s' : SurfaceConfig) : Prop :=
  type s' = type s /\
  frictionRange s' = frictionRange s /\
  color s' = color s /\
  description s' = description s /\
  (type s = type0 ->
   kineticFrictionCoeff s' = newKinetic /\
   staticFrictionCoeff s' = toFixed2 (newKinetic + 0.1)) /\
  (type s <> type0 -> s' = s).

(** The number [parseFloat] reads from the two-decimal numeral of
    [i / 100], [i] positive: a position of the friction slider. *)
Definition twoDecimals (i : Z) : float := ofRatio (Z.to_pos i) 100.

(** The check that an adjustment to the slider position [i / 100] stores
    the position 0.1 higher as static coefficient, above the kinetic one. *)
Definition staticIsTenthAbove (i : Z) : bool :=
  let k := twoDecimals i in
  let mu_s := toFixed2 (k + 0.1) in
  (mu_s =? twoDecimals (i + 10)) && (k <? mu_s).

End B64.

(** * Vocabulary of the statements *)

Section Vocabulary.

Variable params : SimulationParams.
Variable surfaceConfigs : list SurfaceConfig.

(** The collections of states a driver can reach: a run starts from
    [resetSimulation] and is advanced by ticks whose step is not negative
    (frame timestamps do not go back). *)
Inductive Reachable : list SimulationState -> Prop :=
  | reach_reset : Reachable (resetSimulation surfaceConfigs params)
  | reach_tick sts sts' dt :
      Reachable sts -> 0 <= dt ->
      tickAll params surfaceConfigs dt sts = Some sts' ->
      Reachable sts'.

(** The [isFinished] flag of a state mirrors its status. *)
Definition flagged (s : SimulationState) : Prop :=
  isFinished s = Status_eqb (status s) finished.

(** Structural invariant of a body: no arithmetic involved. *)
Record Shape (s : SimulationState) : Prop := mkShape {
  shape_flag : flagged s;
  shape_surface :
    exists surface, findSurface surfaceConfigs (id s) = Some surface;
  shape_static :
    status s = static -> position s = 0 /\ velocity s = 0 /\ timeElapsed s = 0;
  shape_finished :
    status s = finished ->
    exists surface,
      findSurface surfaceConfigs (id s) = Some surface /\
      frictionForce s = kineticFriction params surface
}.

(** Numeric invariant of a body. *)
Record Bounded (s : SimulationState) : Prop := mkBounded {
  bounded_velocity : 0 <= velocity s;
  bounded_position : position s <= distance params;
  bounded_live : status s <> finished -> position s < distance params
}.

End Vocabulary.

(** The table of the force-mode policy, in the words of the specification:
    the condition under which the applied force is active, as a proposition
    on the body's elapsed time and position. *)
Definition activeCondition (p : SimulationParams) (elapsed pos : Q) : Prop :=
  match forceMode p with
  | Continuous => True
  | Impulse => elapsed < 1 # 2
  | Timed => elapsed < forceDuration p
  | Distance => pos < forceDistanceLimit p
  end.

(** What the run-level claims speak about. *)
Definition reportsComplete (out : LoopOutcome) : Prop :=
  setIsFinished out = Some true.

Definition allArrived (sts : list SimulationState) : Prop :=
  Forall (fun s => status s = finished) sts.

Definition noneMoving (sts : list SimulationState) : Prop :=
  Forall (fun s => status s <> moving) sts.

(** A run given by the steps of its ticks, from a reset. *)
Fixpoint runTicks (params : SimulationParams) (cfgs : list SurfaceConfig)
    (dts : list Q) (sts : list SimulationState)
  : option (list SimulationState) :=
  match dts with
  | [] => Some sts
  | dt :: rest =>
      match tickAll params cfgs dt sts with
      | Some sts' => runTicks params cfgs rest sts'
      | None => None
      end
  end.

Definition runFrom (params : SimulationParams) (cfgs : list SurfaceConfig)
    (dts : list Q) : option (list SimulationState) :=
  runTicks params cfgs dts (resetSimulation cfgs params).

(** One body followed through the ticks of the given steps. *)
Fixpoint stepMany (params : SimulationParams) (cfgs : list SurfaceConfig)
    (dts : list Q) (s : SimulationState) : option SimulationState :=
  match dts with
  | [] => Some s
  | dt :: rest =>
      match stepState params cfgs dt s with
      | Some s' => stepMany params cfgs rest s'
      | None => None
      end
  end.

(** The order in which a body goes through its statuses. *)
Definition statusRank (st : Status) : nat :=
  match st with
  | static => 0
  | moving => 1
  | finished => 2
  end.

(** ** Scenarios *)

(** The render before a first run: the initial parameters and surfaces,
    nothing running, nothing finished. *)
Definition idleScope : RenderScope :=
  mkScope INITIAL_PARAMS SURFACES false false.

(** A push of 10 N on 10 kg: below the static limit of every surface. *)
Definition stuckParams : SimulationParams :=
  mkParams 10 500 10 Continuous 5 100.

(** The shortest timed push the controls allow (0.1 s) at 150 N. *)
Definition timedParams : SimulationParams :=
  mkParams 10 500 150 Timed (1 # 10) 100.

(** The floor surface of [SURFACES]. *)
Definition floorSurface : SurfaceConfig :=
  mkSurface NORMAL (4 # 10) (3 # 10) (3 # 10, 6 # 10)
    "bg-slate-300 border-slate-500"
    "Standard floor surface like wood or tile.".

(** The body on the floor after the ticks [0.08; 0.2] of a timed run: it
    broke away on the first tick and was pushed during the second; its
    0.2 s of elapsed time are past the 0.1 s of the push. *)
Definition coastingBody : SimulationState :=
  {| id := NORMAL;
     position := 120570 # 250000;
     velocity := 120570 # 50000;
     acceleration := 120570 # 10000;
     timeElapsed := 1 # 5;
     isFinished := false;
     status := moving;
     frictionForce := 29430 # 1000;
     currentAppliedForce := 150 |}.

(** The body on the floor after the ticks [0.08; 10] of a continuous run
    with [INITIAL_PARAMS]: it overshot the 500 m and was clamped there. *)
Definition arrivedBody : SimulationState :=
  {| id := NORMAL;
     position := 500;
     velocity := 1205700 # 10000;
     acceleration := 120570 # 10000;
     timeElapsed := 10;
     isFinished := true;
     status := finished;
     frictionForce := 29430 # 1000;
     currentAppliedForce := 150 |}.

(** * Properties *)

(** ** Boolean comparisons *)

Lemma Qlt_bool_iff (x y : Q) : Qlt_bool x y = true <-> x < y.
Proof.
  unfold Qlt_bool. rewrite negb_true_iff.
  destruct (Qle_bool y x) eqn:E.
  - apply Qle_bool_iff in E. split; [discriminate | intro; lra].
  - split; [intros _ | reflexivity].
    destruct (Qlt_le_dec x y) as [L | L]; [exact L |].
    apply Qle_bool_iff in L. congruence.
Qed.

Lemma Qgt_bool_iff (x y : Q) : Qgt_bool x y = true <-> y < x.
Proof. apply Qlt_bool_iff. Qed.

Lemma Qlt_bool_false_iff (x y : Q) : Qlt_bool x y = false <-> y <= x.
Proof.
  unfold Qlt_bool. rewrite negb_false_iff. apply Qle_bool_iff.
Qed.

Lemma Qle_bool_false_iff (x y : Q) : Qle_bool x y = false <-> y < x.
Proof.
  rewrite <- Qlt_bool_iff. unfold Qlt_bool.
  destruct (Qle_bool x y); simpl; split; congruence.
Qed.

Lemma SurfaceType_eqb_eq (a b : SurfaceType) :
  SurfaceType_eqb a b = true <-> a = b.
Proof. destruct a, b; simpl; split; congruence. Qed.

Lemma Status_eqb_eq (a b : Status) : Status_eqb a b = true <-> a = b.
Proof. destruct a, b; simpl; split; congruence. Qed.

(** Turn the boolean comparisons found among the hypotheses into
    propositions that [lra] understands. *)
Ltac qprop :=
  repeat match goal with
    | H : Qgt_bool _ _ = _ |- _ => unfold Qgt_bool in H
    | H : Qge_bool _ _ = _ |- _ => unfold Qge_bool in H
    | H : Qlt_bool _ _ = true |- _ => apply Qlt_bool_iff in H
    | H : Qlt_bool _ _ = false |- _ => apply Qlt_bool_false_iff in H
    | H : Qle_bool _ _ = true |- _ => apply Qle_bool_iff in H
    | H : Qle_bool _ _ = false |- _ => apply Qle_bool_false_iff in H
    | H : Qeq_bool _ _ = true |- _ => apply Qeq_bool_iff in H
    | H : andb _ _ = true |- _ => apply andb_true_iff in H; destruct H
    end.

(** ** Arithmetic of one integration step *)

Lemma accel_positive (push kin m : Q) :
  0 < m -> kin < push -> 0 < (push - kin) / m.
Proof.
  intros Hm Hk. unfold Qdiv.
  apply Qmult_lt_0_compat; [lra | now apply Qinv_lt_0_compat].
Qed.

Lemma accel_step_nonneg (push kin m dt : Q) :
  0 < m -> kin < push -> 0 <= dt -> 0 <= (push - kin) / m * dt.
Proof.
  intros Hm Hk Hdt.
  apply Qmult_le_0_compat; [| exact Hdt].
  apply Qlt_le_weak. now apply accel_positive.
Qed.


(** ** The rounding of [toFixed(2)] *)

Lemma round_half_up_near (y : Q) :
  inject_Z (Qfloor (y + (1 # 2))) - y <= 1 # 2 /\
  y - inject_Z (Qfloor (y + (1 # 2))) < 1 # 2.
Proof.
  pose proof (Qfloor_le (y + (1 # 2))) as Hle.
  pose proof (Qlt_floor (y + (1 # 2))) as Hlt.
  rewrite inject_Z_plus in Hlt.
  change (inject_Z 1) with 1 in Hlt.
  split; lra.
Qed.

Lemma hundredth (n : Z) : n # 100 == inject_Z n / 100.
Proof.
  unfold Qeq, Qdiv, Qmult, Qinv, inject_Z. simpl. lia.
Qed.

Lemma toFixed2_near (x : Q) :
  - (1 # 200) <= toFixed2 x - x /\ toFixed2 x - x <= 1 # 200.
Proof.
  unfold toFixed2. destruct (Qlt_bool x 0) eqn:E.
  - destruct (round_half_up_near (- x * 100)) as [H1 H2].
    rewrite hundredth.
    set (n := inject_Z (Qfloor (- x * 100 + (1 # 2)))) in *.
    split; unfold Qdiv; change (/ 100) with (1 # 100); lra.
  - destruct (round_half_up_near (x * 100)) as [H1 H2].
    rewrite hundredth.
    set (n := inject_Z (Qfloor (x * 100 + (1 # 2)))) in *.
    split; unfold Qdiv; change (/ 100) with (1 # 100); lra.
Qed.

Lemma toFixed2_grid (x : Q) : exists n : Z, toFixed2 x == n # 100.
Proof.
  unfold toFixed2. destruct (Qlt_bool x 0).
  - exists (- Qfloor (- x * 100 + (1 # 2)))%Z. reflexivity.
  - eexists. reflexivity.
Qed.

(** A value that already has two decimals is left alone. *)
Lemma toFixed2_exact (n : Z) : toFixed2 (n # 100) == n # 100.
Proof.
  destruct (toFixed2_grid (n # 100)) as [k Hk].
  pose proof (toFixed2_near (n # 100)) as Hn.
  rewrite Hk in *. clear Hk.
  unfold Qeq, Qle, Qminus, Qplus, Qopp in *. simpl in *. lia.
Qed.

(** ** One body, one tick *)

Section Engine.

Variable params : SimulationParams.
Variable surfaceConfigs : list SurfaceConfig.

Lemma advance_id surface dt s : id (advance params surface dt s) = id s.
Proof.
  unfold advance.
  destruct (status s); [destruct (Qgt_bool _ _) | |]; reflexivity.
Qed.

Lemma advance_flagged surface dt s : flagged (advance params surface dt s).
Proof.
  unfold advance, flagged.
  destruct (status s); [destruct (Qgt_bool _ _) | |]; reflexivity.
Qed.

Lemma advance_applied surface dt s :
  currentAppliedForce (advance params surface dt s) = pushForce params s.
Proof.
  unfold advance.
  destruct (status s); [destruct (Qgt_bool _ _) | |]; reflexivity.
Qed.

Lemma stepState_finished dt s :
  isFinished s = true -> stepState params surfaceConfigs dt s = Some s.
Proof. intros H. unfold stepState. now rewrite H. Qed.

Lemma stepState_live dt s surface :
  isFinished s = false -> findSurface surfaceConfigs (id s) = Some surface ->
  stepState params surfaceConfigs dt s = Some (advance params surface dt s).
Proof. intros H F. unfold stepState. now rewrite H, F. Qed.

Lemma stepState_inv dt s s' :
  stepState params surfaceConfigs dt s = Some s' ->
  (isFinished s = true /\ s' = s) \/
  (isFinished s = false /\
   exists surface,
     findSurface surfaceConfigs (id s) = Some surface /\
     s' = advance params surface dt s).
Proof.
  unfold stepState. destruct (isFinished s).
  - intros [= <-]. now left.
  - destruct (findSurface surfaceConfigs (id s)) as [surface |];
      [| discriminate].
    intros [= <-]. right. split; [reflexivity |]. now exists surface.
Qed.

Lemma flagged_live s :
  flagged s -> isFinished s = false -> status s <> finished.
Proof.
  unfold flagged. intros Hf Hl Hs. rewrite Hs in Hf. simpl in Hf. congruence.
Qed.

Lemma flagged_done s : flagged s -> status s = finished -> isFinished s = true.
Proof. unfold flagged. intros Hf Hs. now rewrite Hs in Hf. Qed.


Lemma tickAll_Forall2 dt sts sts' :
  tickAll params surfaceConfigs dt sts = Some sts' ->
  Forall2 (fun s s' => stepState params surfaceConfigs dt s = Some s') sts sts'.
Proof.
  revert sts'. induction sts as [| s rest IH]; simpl; intros sts'.
  - intros [= <-]. constructor.
  - destruct (stepState params surfaceConfigs dt s) as [s1 |] eqn:E1;
      [| discriminate].
    destruct (tickAll params surfaceConfigs dt rest) as [rest1 |];
      [| discriminate].
    intros [= <-]. constructor; [exact E1 | now apply IH].
Qed.

(** An invariant of single states that holds after a reset and is kept by
    every step holds of all the states of every reachable collection. *)
Lemma Reachable_Forall (P : SimulationState -> Prop) :
  Forall P (resetSimulation surfaceConfigs params) ->
  (forall dt s s', 0 <= dt -> P s ->
     stepState params surfaceConfigs dt s = Some s' -> P s') ->
  forall sts, Reachable params surfaceConfigs sts -> Forall P sts.
Proof.
  intros Hreset Hstep sts R.
  induction R as [| sts sts' dt _ IH Hdt Htick]; [exact Hreset |].
  apply tickAll_Forall2 in Htick.
  induction Htick as [| s s' rest rest' Hs _ IHrest]; constructor.
  - inversion IH; subst. eapply Hstep; eassumption.
  - apply IHrest. now inversion IH.
Qed.

(** *** The structural invariant *)

Lemma findSurface_member c :
  In c surfaceConfigs ->
  exists surface, findSurface surfaceConfigs (type c) = Some surface.
Proof.
  intros Hin. unfold findSurface.
  destruct (find _ surfaceConfigs) as [surface |] eqn:E; [now exists surface |].
  pose proof (find_none _ _ E c Hin) as Hn. simpl in Hn.
  assert (SurfaceType_eqb (type c) (type c) = true)
    by now apply SurfaceType_eqb_eq.
  congruence.
Qed.

Lemma Shape_reset :
  Forall (Shape params surfaceConfigs) (resetSimulation surfaceConfigs params).
Proof.
  unfold resetSimulation. apply Forall_forall. intros s Hs.
  apply in_map_iff in Hs. destruct Hs as [c [<- Hc]].
  constructor; simpl.
  - reflexivity.
  - now apply findSurface_member.
  - intros _. repeat split.
  - discriminate.
Qed.

Lemma Shape_stepState dt s s' :
  Shape params surfaceConfigs s ->
  stepState params surfaceConfigs dt s = Some s' ->
  Shape params surfaceConfigs s'.
Proof.
  intros Hs Hstep.
  destruct (stepState_inv _ _ _ Hstep) as [[_ ->] | [Hlive [surface [F ->]]]];
    [exact Hs |].
  destruct Hs as [Hflag _ Hst _].
  pose proof (flagged_live _ Hflag Hlive) as Hnf.
  constructor.
  - apply advance_flagged.
  - rewrite advance_id. now exists surface.
  - unfold advance. destruct (status s) eqn:Est.
    + destruct (Qgt_bool _ _); simpl; [discriminate | intros _; now apply Hst].
    + simpl.
      destruct (Qle_bool _ 0 && Qle_bool _ _); destruct (Qge_bool _ _);
        simpl; discriminate.
    + congruence.
  - rewrite advance_id. intros Hfin. exists surface. split; [exact F |].
    revert Hfin. unfold advance. destruct (status s) eqn:Est.
    + destruct (Qgt_bool _ _); simpl; discriminate.
    + reflexivity.
    + congruence.
Qed.

Lemma Reachable_Shape sts :
  Reachable params surfaceConfigs sts -> Forall (Shape params surfaceConfigs) sts.
Proof.
  apply Reachable_Forall; [exact Shape_reset |].
  intros dt s s' _. apply Shape_stepState.
Qed.

(** On reachable states the engine never raises: every tick returns. *)
Lemma stepState_total dt s :
  Shape params surfaceConfigs s ->
  exists s', stepState params surfaceConfigs dt s = Some s'.
Proof.
  intros [_ [surface F] _ _]. unfold stepState.
  destruct (isFinished s); [now exists s |].
  rewrite F. eexists. reflexivity.
Qed.

Lemma tickAll_total dt sts :
  Reachable params surfaceConfigs sts ->
  exists sts', tickAll params surfaceConfigs dt sts = Some sts'.
Proof.
  intros R. apply Reachable_Shape in R.
  induction R as [| s rest Hs _ [rest' IH]]; simpl; [now exists [] |].
  destruct (stepState_total dt s Hs) as [s' E]. rewrite E, IH.
  now exists (s' :: rest').
Qed.

(** *** The numeric invariant *)

Hypothesis mass_positive : 0 < mass params.
Hypothesis distance_positive : 0 < distance params.

(** What one step of a live body does to velocity and position. *)
Lemma advance_kinematics surface dt s :
  0 <= dt -> Bounded params s ->
  let s' := advance params surface dt s in
  Bounded params s' /\
  (position s <= position s') /\
  (status s = moving ->
   distance params <= position s + velocity s' * dt ->
   position s' = distance params).
Proof.
  intros Hdt [Hv Hp Hlive]. unfold advance.
  destruct (status s) eqn:Est.
  - assert (position s < distance params) as Hlt by (apply Hlive; discriminate).
    destruct (Qgt_bool _ _); simpl;
      (split; [constructor; simpl; auto | split; [lra | discriminate]]).
  - simpl.
    assert (position s < distance params) as Hlt by (apply Hlive; discriminate).
    set (kin := kineticFriction params surface).
    set (push := pushForce params s).
    set (v1 := velocity s + (push - kin) / mass params * dt).
    destruct (Qle_bool v1 0 && Qle_bool push kin) eqn:Estop.
    + qprop.
      destruct (Qge_bool (position s + 0 * dt) (distance params)) eqn:Earr;
        simpl; qprop;
        (split; [constructor; simpl; try lra; try congruence |
                 split; [lra | intros _ Hov; try reflexivity; lra]]).
    + assert (0 <= v1) as Hv1.
      { apply andb_false_iff in Estop. destruct Estop as [E | E]; qprop.
        - lra.
        - pose proof (accel_step_nonneg push kin (mass params) dt
                        mass_positive E Hdt).
          unfold v1. lra. }
      assert (0 <= v1 * dt) as Hd by now apply Qmult_le_0_compat.
      destruct (Qge_bool (position s + v1 * dt) (distance params)) eqn:Earr;
        simpl; qprop;
        (split; [constructor; simpl; try lra; try congruence; intros _; lra |
                 split; [lra | intros _ Hov; try reflexivity; lra]]).
  - simpl. split; [constructor; simpl; auto; congruence |].
    split; [lra | discriminate].
Qed.

Lemma Bounded_reset : Forall (Bounded params) (resetSimulation surfaceConfigs params).
Proof.
  unfold resetSimulation. apply Forall_forall. intros s Hs.
  apply in_map_iff in Hs. destruct Hs as [c [<- Hc]].
  constructor; simpl; intros; lra.
Qed.

Lemma Bounded_stepState dt s s' :
  0 <= dt -> Bounded params s ->
  stepState params surfaceConfigs dt s = Some s' -> Bounded params s'.
Proof.
  intros Hdt Hb Hstep.
  destruct (stepState_inv _ _ _ Hstep) as [[_ ->] | [_ [surface [_ ->]]]];
    [exact Hb |].
  now apply advance_kinematics.
Qed.

Lemma Reachable_Bounded sts :
  Reachable params surfaceConfigs sts -> Forall (Bounded params) sts.
Proof. apply Reachable_Forall; [exact Bounded_reset | exact Bounded_stepState]. Qed.

End Engine.

(** ** Runs *)

Lemma runTicks_Reachable params cfgs dts sts sts' :
  Reachable params cfgs sts ->
  Forall (fun dt => 0 <= dt) dts ->
  runTicks params cfgs dts sts = Some sts' ->
  Reachable params cfgs sts'.
Proof.
  intros R Hdts. revert sts R.
  induction Hdts as [| dt rest Hdt _ IH]; simpl; intros sts R.
  - now intros [= <-].
  - destruct (tickAll params cfgs dt sts) as [sts1 |] eqn:E; [| discriminate].
    apply IH. now apply reach_tick with sts dt.
Qed.

Lemma runFrom_Reachable params cfgs dts sts :
  Forall (fun dt => 0 <= dt) dts ->
  runFrom params cfgs dts = Some sts ->
  Reachable params cfgs sts.
Proof. intros Hdts. apply runTicks_Reachable; [constructor | exact Hdts]. Qed.

(** Frame timestamps that do not go back give steps that are not negative,
    so the states [loop] leaves behind are those of a run. *)
Lemma simStepOf_nonneg time lastTime :
  lastTime <= time -> 0 <= simStepOf time lastTime.
Proof.
  intros H. unfold simStepOf, SPEED_MULTIPLIER, Qdiv.
  change (/ 1000) with (1 # 1000). lra.
Qed.

Lemma loop_Reachable params cfgs isRunning time lastTime sts out :
  Reachable params cfgs sts -> lastTime <= time ->
  loop params cfgs isRunning time lastTime sts = Some out ->
  Reachable params cfgs (newStates out).
Proof.
  intros R Ht. unfold loop.
  destruct (tickAll params cfgs (simStepOf time lastTime) sts) as [sts' |] eqn:E;
    [| discriminate].
  assert (Reachable params cfgs sts') as R'
    by (apply reach_tick with sts (simStepOf time lastTime);
        [exact R | now apply simStepOf_nonneg | exact E]).
  destruct (negb (currentlyMoving sts') && isRunning); intros [= <-]; exact R'.
Qed.

Lemma coastingBody_reachable :
  exists sts,
    Reachable timedParams SURFACES sts /\ nth_error sts 1 = Some coastingBody.
Proof.
  destruct (runFrom timedParams SURFACES [2 # 25; 1 # 5]) as [sts |] eqn:E;
    [| discriminate].
  exists sts. split.
  - apply runFrom_Reachable with [2 # 25; 1 # 5]; [| exact E].
    repeat constructor; discriminate.
  - vm_compute in E. injection E as <-. reflexivity.
Qed.

Lemma arrivedBody_reachable :
  exists sts,
    Reachable INITIAL_PARAMS SURFACES sts /\ nth_error sts 1 = Some arrivedBody.
Proof.
  destruct (runFrom INITIAL_PARAMS SURFACES [2 # 25; 10]) as [sts |] eqn:E;
    [| discriminate].
  exists sts. split.
  - apply runFrom_Reachable with [2 # 25; 10]; [| exact E].
    repeat constructor; discriminate.
  - vm_compute in E. injection E as <-. reflexivity.
Qed.

(** ** Run-level completion (claim C1) *)

Lemma currentlyMoving_false sts :
  currentlyMoving sts = false <-> noneMoving sts.
Proof.
  unfold currentlyMoving, noneMoving. induction sts as [| s rest IH]; simpl.
  - split; [constructor | reflexivity].
  - rewrite orb_false_iff, IH. split.
    + intros [Hs Hrest]. constructor; [| exact Hrest].
      intros Hm. apply Status_eqb_eq in Hm. congruence.
    + intros H. inversion H as [| ? ? Hs Hrest]; subst. split; [| exact Hrest].
      destruct (Status_eqb (status s) moving) eqn:E; [| reflexivity].
      apply Status_eqb_eq in E. contradiction.
Qed.

Lemma allArrived_noneMoving sts : allArrived sts -> noneMoving sts.
Proof.
  unfold allArrived, noneMoving. apply Forall_impl. intros s Hs. congruence.
Qed.

(** What the stop test of [loop] is, whatever [isRunning] it reads. *)
Lemma loop_complete_iff_none_moving
    params cfgs isRunning time lastTime sts out :
  loop params cfgs isRunning time lastTime sts = Some out ->
  (reportsComplete out <-> isRunning = true /\ noneMoving (newStates out)) /\
  (reportsComplete out <-> frameRequested out = false).
Proof.
  unfold loop, reportsComplete.
  destruct (tickAll params cfgs (simStepOf time lastTime) sts) as [sts' |];
    [| discriminate].
  pose proof (currentlyMoving_false sts') as Hnm.
  destruct (currentlyMoving sts'); destruct isRunning; simpl;
    intros [= <-]; simpl; intuition (try discriminate; try congruence).
Qed.

(** The callback that a click on Start schedules reads [isRunning] as
    [false], and so does every frame after it, since the callback
    re-schedules itself: it never reports the run complete and always asks
    for another frame. *)
Lemma scheduled_loop_never_reports scope callback time lastTime sts out :
  scheduledLoop scope = Some callback ->
  callback time lastTime sts = Some out ->
  setIsFinished out = None /\ setIsRunning out = None /\
  frameRequested out = true.
Proof.
  unfold scheduledLoop, startButtonRendered.
  destruct (scopeIsRunning scope) eqn:Er; simpl; [discriminate |].
  intros [= <-]. unfold loop.
  destruct (tickAll _ _ _ sts) as [sts' |]; [| discriminate].
  rewrite andb_false_r. intros [= <-]. repeat split.
Qed.

(** C1 at a run whose three bodies have all Arrived: the callback started
    from the Start button is called on them, leaves them Arrived, does not
    report the run complete and requests the next frame. *)
Theorem started_run_is_never_reported_complete :
  match scheduledLoop idleScope,
        runFrom INITIAL_PARAMS SURFACES [2 # 25; 10] with
  | Some callback, Some sts =>
      allArrived sts /\
      match callback 10016 10000 sts with
      | Some out =>
          allArrived (newStates out) /\
          ~ reportsComplete out /\
          frameRequested out = true
      | None => False
      end
  | _, _ => False
  end.
Proof.
  vm_compute. split; [repeat constructor |].
  split; [repeat constructor |]. split; [discriminate | reflexivity].
Qed.

(** ** The halting tick (claim C2) *)

(** C2, as the code has it: on a tick where a Moving body's updated velocity
    is at most 0 and the push is at most the kinetic friction, velocity and
    acceleration are set to 0 and the body becomes Arrived; the position
    keeps its value (the displacement is [0 * simStep]), while the elapsed
    time still advances by the step of that tick. *)
Theorem halting_tick params cfgs surface dt s :
  0 < mass params ->
  isFinished s = false ->
  status s = moving ->
  findSurface cfgs (id s) = Some surface ->
  position s < distance params ->
  velocity s
    + (pushForce params s - kineticFriction params surface) / mass params * dt
    <= 0 ->
  pushForce params s <= kineticFriction params surface ->
  exists s',
    stepState params cfgs dt s = Some s' /\
    status s' = finished /\ isFinished s' = true /\
    velocity s' = 0 /\ acceleration s' = 0 /\
    position s' == position s /\
    timeElapsed s' = timeElapsed s + dt.
Proof.
  intros _ Hlive Hst F Hpos Hv Hpush.
  exists (advance params surface dt s).
  split; [now apply stepState_live |].
  unfold advance. rewrite Hst.
  apply Qle_bool_iff in Hv, Hpush. rewrite Hv, Hpush. simpl.
  destruct (Qge_bool (position s + 0 * dt) (distance params)) eqn:Earr; simpl.
  - qprop. lra.
  - repeat split; try reflexivity. lra.
Qed.

Lemma halting_tick_witness :
  exists s',
    stepState timedParams SURFACES 1 coastingBody = Some s' /\
    status s' = finished /\ isFinished s' = true /\
    velocity s' = 0 /\ acceleration s' = 0 /\
    position s' == position coastingBody /\
    timeElapsed s' = timeElapsed coastingBody + 1.
Proof.
  apply (halting_tick timedParams SURFACES floorSurface 1 coastingBody);
    reflexivity || discriminate.
Defined.

(** C2 as stated fails: on the halting tick of [coastingBody] (a step of
    1 s, the push of the timed run being over) the body becomes Arrived with
    velocity 0, and its elapsed time goes from 0.2 s to 1.2 s. *)
Lemma halting_tick_advances_elapsed_time :
  match stepState timedParams SURFACES 1 coastingBody with
  | Some s' =>
      status coastingBody = moving /\
      status s' = finished /\ velocity s' == 0 /\
      timeElapsed coastingBody == 1 # 5 /\
      timeElapsed s' == 6 # 5 /\
      ~ timeElapsed s' == timeElapsed coastingBody
  | None => False
  end.
Proof.
  vm_compute. repeat split; discriminate.
Qed.

(** ** Arrived bodies (claim C3) *)

(** A tick returns an Arrived body of a run as it is: no field changes. *)
Lemma arrived_tick_is_noop params cfgs sts s dt :
  Reachable params cfgs sts -> In s sts -> status s = finished ->
  stepState params cfgs dt s = Some s.
Proof.
  intros R Hin Hfin. apply Reachable_Shape in R.
  rewrite Forall_forall in R. destruct (R s Hin) as [Hflag _ _ _].
  apply stepState_finished. now apply flagged_done.
Qed.

(** The friction force an Arrived body of a run reports is the kinetic
    friction of its surface, the value stored by the tick on which it
    arrived; the branch of [advance] that would report 0 is never taken. *)
Lemma arrived_reports_kinetic_friction params cfgs sts s :
  Reachable params cfgs sts -> In s sts -> status s = finished ->
  exists surface,
    findSurface cfgs (id s) = Some surface /\
    frictionForce s = kineticFrictionCoeff surface * (mass params * GRAVITY).
Proof.
  intros R Hin Hfin. apply Reachable_Shape in R.
  rewrite Forall_forall in R. destruct (R s Hin) as [_ _ _ Hk].
  exact (Hk Hfin).
Qed.

(** C3 at [arrivedBody]: the tick after its arrival changes no field, and the
    friction force it goes on reporting is the 29.43 N of kinetic friction,
    not 0. *)
Theorem arrived_body_keeps_kinetic_friction :
  match runFrom INITIAL_PARAMS SURFACES [2 # 25; 10; 2 # 25] with
  | Some [_; s; _] => s = arrivedBody
  | _ => False
  end /\
  status arrivedBody = finished /\
  stepState INITIAL_PARAMS SURFACES (2 # 25) arrivedBody = Some arrivedBody /\
  frictionForce arrivedBody == 2943 # 100 /\
  ~ frictionForce arrivedBody == 0.
Proof.
  split; [vm_compute; reflexivity |].
  repeat split; discriminate.
Qed.

(** ** Velocity and position along a run (claims C6 and C7) *)

(** C6: at every tick boundary of a run the velocity of every body is at
    least 0, whatever the force, the force mode, the surfaces and the steps
    of the ticks. *)
Theorem velocity_never_negative params cfgs sts :
  0 < mass params ->
  Reachable params cfgs sts ->
  Forall (fun s => 0 <= velocity s) sts.
Proof.
  intros Hm R.
  apply (Reachable_Forall params cfgs (fun s => 0 <= velocity s)); [| | exact R].
  - unfold resetSimulation. apply Forall_forall. intros s Hs.
    apply in_map_iff in Hs. destruct Hs as [c [<- _]]. simpl. lra.
  - intros dt s s' Hdt Hv Hstep.
    destruct (stepState_inv _ _ _ _ _ Hstep) as [[_ ->] | [_ [surface [_ ->]]]];
      [exact Hv |].
    unfold advance. destruct (status s).
    + destruct (Qgt_bool _ _); exact Hv.
    + simpl.
      set (kin := kineticFriction params surface).
      set (push := pushForce params s).
      set (v1 := velocity s + (push - kin) / mass params * dt).
      destruct (Qle_bool v1 0 && Qle_bool push kin) eqn:Estop; [lra |].
      apply andb_false_iff in Estop. destruct Estop as [E | E]; qprop.
      * lra.
      * pose proof (accel_step_nonneg push kin (mass params) dt Hm E Hdt).
        unfold v1. lra.
    + exact Hv.
Qed.

Lemma velocity_never_negative_witness :
  exists sts,
    runFrom timedParams SURFACES [2 # 25; 1 # 5; 1] = Some sts /\
    Forall (fun s => 0 <= velocity s) sts.
Proof.
  destruct (runFrom timedParams SURFACES [2 # 25; 1 # 5; 1]) as [sts |] eqn:E;
    [| discriminate].
  exists sts. split; [reflexivity |].
  apply (velocity_never_negative timedParams SURFACES sts); [reflexivity |].
  apply runFrom_Reachable with [2 # 25; 1 # 5; 1]; [| exact E].
  repeat constructor; discriminate.
Defined.

Lemma Forall2_refine {A B : Type} (P : A -> Prop) (R0 R : A -> B -> Prop) l l' :
  (forall a b, P a -> R0 a b -> R a b) ->
  Forall P l -> Forall2 R0 l l' -> Forall2 R l l'.
Proof.
  intros Himp HP H0. induction H0 as [| a b l l' Hab _ IH]; constructor.
  - apply Himp; [now inversion HP | exact Hab].
  - apply IH. now inversion HP.
Qed.

(** C7: over any tick of a run the position of a body does not decrease and
    does not exceed the target distance; when the integration step of a
    Moving body reaches or passes the target, the position is set to the
    target distance itself. *)
Theorem position_monotone_and_clamped params cfgs sts dt sts' :
  0 < mass params ->
  0 < distance params ->
  Reachable params cfgs sts ->
  0 <= dt ->
  tickAll params cfgs dt sts = Some sts' ->
  Forall (fun s => position s <= distance params) sts /\
  Forall2
    (fun s s' =>
       (position s <= position s') /\
       (position s' <= distance params) /\
       (status s = moving ->
        distance params <= position s + velocity s' * dt ->
        position s' = distance params))
    sts sts'.
Proof.
  intros Hm Hd R Hdt Htick.
  pose proof (Reachable_Bounded params cfgs Hm Hd sts R) as Hb.
  pose proof (Reachable_Shape params cfgs sts R) as Hs.
  split.
  - revert Hb. apply Forall_impl. intros s [_ Hp _]. exact Hp.
  - apply tickAll_Forall2 in Htick.
    assert (Forall (fun s => Bounded params s /\ Shape params cfgs s) sts) as Hbs.
    { apply Forall_forall. intros s Hin. rewrite Forall_forall in Hb, Hs.
      split; [now apply Hb | now apply Hs]. }
    revert Hbs Htick. apply Forall2_refine.
    intros s s' [Hbd Hsh] Hstep.
    destruct (stepState_inv _ _ _ _ _ Hstep) as [[Hfin ->] | [_ [surface [_ ->]]]].
    + destruct Hbd as [_ Hp _]. destruct Hsh as [Hflag _ _ _].
      repeat split; try lra.
      intros Hmov. unfold flagged in Hflag. rewrite Hmov, Hfin in Hflag.
      discriminate.
    + destruct (advance_kinematics params Hm surface dt s Hdt Hbd)
        as [[_ Hp' _] [Hmono Hclamp]].
      repeat split; assumption.
Qed.

Lemma position_monotone_and_clamped_witness :
  exists sts sts',
    runFrom INITIAL_PARAMS SURFACES [2 # 25; 2 # 25] = Some sts /\
    tickAll INITIAL_PARAMS SURFACES 10 sts = Some sts' /\
    Forall2
      (fun s s' =>
         (position s <= position s') /\
         (position s' <= 500) /\
         (status s = moving ->
          500 <= position s + velocity s' * 10 ->
          position s' = 500))
      sts sts'.
Proof.
  destruct (runFrom INITIAL_PARAMS SURFACES [2 # 25; 2 # 25]) as [sts |] eqn:E;
    [| discriminate].
  destruct (tickAll INITIAL_PARAMS SURFACES 10 sts) as [sts' |] eqn:E';
    [| vm_compute in E; injection E as <-; discriminate].
  exists sts, sts'. split; [reflexivity |]. split; [exact E' |].
  apply (position_monotone_and_clamped INITIAL_PARAMS SURFACES sts 10 sts').
  - reflexivity.
  - reflexivity.
  - apply runFrom_Reachable with [2 # 25; 2 # 25]; [| exact E].
    repeat constructor; discriminate.
  - discriminate.
  - exact E'.
Defined.

(** ** Stationary bodies and the force-mode clocks (claim C8) *)

(** C8: a tick leaves the elapsed time (and the position) of a Stationary
    body unchanged; so, along a run, a body that has not started moving still
    has elapsed time 0 and position 0, and under the timed and the
    distance-limited modes its push is still the full applied force. *)
Theorem stationary_clock_frozen params cfgs :
  (forall dt s s',
     status s = static ->
     stepState params cfgs dt s = Some s' ->
     timeElapsed s' = timeElapsed s /\ position s' = position s) /\
  (forall sts s,
     Reachable params cfgs sts -> In s sts -> status s = static ->
     timeElapsed s = 0 /\ position s = 0 /\
     (forceMode params = Timed -> 0 < forceDuration params ->
      isForceActive params s = true /\
      pushForce params s = appliedForce params) /\
     (forceMode params = Distance -> 0 < forceDistanceLimit params ->
      isForceActive params s = true /\
      pushForce params s = appliedForce params)).
Proof.
  split.
  - intros dt s s' Hst Hstep.
    destruct (stepState_inv _ _ _ _ _ Hstep) as [[_ ->] | [_ [surface [_ ->]]]];
      [split; reflexivity |].
    unfold advance. rewrite Hst.
    destruct (Qgt_bool _ _); split; reflexivity.
  - intros sts s R Hin Hst. apply Reachable_Shape in R.
    rewrite Forall_forall in R. destruct (R s Hin) as [_ _ Hzero _].
    destruct (Hzero Hst) as [Hp [_ Ht]].
    split; [exact Ht |]. split; [exact Hp |].
    unfold pushForce, isForceActive. rewrite Ht, Hp.
    split; intros -> Hpos; apply Qlt_bool_iff in Hpos; rewrite Hpos;
      split; reflexivity.
Qed.

Lemma stationary_clock_frozen_witness :
  exists sts s,
    runFrom (mkParams 10 500 30 Timed (1 # 10) 100) SURFACES
      [2 # 25; 1 # 5; 1] = Some sts /\
    nth_error sts 1 = Some s /\
    status s = static /\
    timeElapsed s = 0 /\
    pushForce (mkParams 10 500 30 Timed (1 # 10) 100) s = 30.
Proof.
  pose (p := mkParams 10 500 30 Timed (1 # 10) 100).
  destruct (runFrom p SURFACES [2 # 25; 1 # 5; 1]) as [sts |] eqn:E;
    [| discriminate].
  assert (Reachable p SURFACES sts) as R.
  { apply runFrom_Reachable with [2 # 25; 1 # 5; 1]; [| exact E].
    repeat constructor; discriminate. }
  destruct (nth_error sts 1) as [s |] eqn:En;
    [| vm_compute in E; injection E as <-; discriminate].
  assert (status s = static) as Hst
    by (vm_compute in E; injection E as <-; injection En as <-; reflexivity).
  destruct (stationary_clock_frozen p SURFACES) as [_ H].
  destruct (H sts s R (nth_error_In _ _ En) Hst) as [Ht [_ [Htimed _]]].
  exists sts, s. repeat split; try assumption.
  destruct (Htimed eq_refl eq_refl) as [_ Hpush]. exact Hpush.
Defined.

(** ** The force-mode policy (claim C9) *)

Lemma isForceActive_spec params s :
  isForceActive params s = true <->
  activeCondition params (timeElapsed s) (position s).
Proof.
  unfold isForceActive, activeCondition, IMPULSE_DURATION.
  destruct (forceMode params); try apply Qlt_bool_iff.
  split; [constructor | reflexivity].
Qed.

(** C9: on every tick of a body that is not yet finished, the force the
    engine works with, and reports as [currentAppliedForce], is the
    configured applied force when the active condition of the mode holds
    (continuous: always; impulse: elapsed < 0.5 s; timed: elapsed < duration;
    distance-limited: position < limit) and 0 otherwise. *)
Theorem effective_applied_force params cfgs surface dt s :
  isFinished s = false ->
  findSurface cfgs (id s) = Some surface ->
  exists s',
    stepState params cfgs dt s = Some s' /\
    currentAppliedForce s' = pushForce params s /\
    (activeCondition params (timeElapsed s) (position s) ->
     pushForce params s = appliedForce params) /\
    (~ activeCondition params (timeElapsed s) (position s) ->
     pushForce params s = 0).
Proof.
  intros Hlive F. exists (advance params surface dt s).
  split; [now apply stepState_live |].
  split; [apply advance_applied |].
  unfold pushForce.
  destruct (isForceActive params s) eqn:E.
  - split; [reflexivity |]. intros Hn. apply isForceActive_spec in E.
    contradiction.
  - split; [| reflexivity]. intros Ha. apply isForceActive_spec in Ha.
    congruence.
Qed.

Lemma effective_applied_force_witness :
  exists s',
    stepState timedParams SURFACES 1 coastingBody = Some s' /\
    currentAppliedForce s' = pushForce timedParams coastingBody /\
    pushForce timedParams coastingBody = 0.
Proof.
  destruct (effective_applied_force timedParams SURFACES floorSurface 1
              coastingBody eq_refl eq_refl) as [s' [H1 [H2 [_ H4]]]].
  exists s'. split; [exact H1 |]. split; [exact H2 |].
  apply H4. unfold activeCondition. simpl. apply Qle_not_lt. discriminate.
Defined.

(** The four rows of the table, on one body with 0.3 s elapsed at 50 m. *)
Example force_modes_at_a_glance :
  let s := mkState NORMAL 50 1 0 (3 # 10) false moving 0 0 in
  pushForce (mkParams 10 500 150 Continuous 5 100) s = 150 /\
  pushForce (mkParams 10 500 150 Impulse 5 100) s = 150 /\
  pushForce (mkParams 10 500 150 Timed (3 # 10) 100) s = 0 /\
  pushForce (mkParams 10 500 150 Distance 5 50) s = 0 /\
  pushForce (mkParams 10 500 150 Distance 5 51) s = 150.
Proof. repeat split. Qed.

(** ** The breakaway tick (claim C10) *)



(** * Further properties of the engine *)

(** ** The collection of bodies *)

Lemma stepState_id params cfgs dt s s' :
  stepState params cfgs dt s = Some s' -> id s' = id s.
Proof.
  intros H.
  destruct (stepState_inv _ _ _ _ _ H) as [[_ ->] | [_ [surface [_ ->]]]];
    [reflexivity | apply advance_id].
Qed.

Lemma tickAll_ids params cfgs dt sts sts' :
  tickAll params cfgs dt sts = Some sts' -> map id sts' = map id sts.
Proof.
  intros H. apply tickAll_Forall2 in H.
  induction H as [| s s' rest rest' Hs _ IH]; simpl; [reflexivity |].
  rewrite IH. f_equal. eapply stepState_id. exact Hs.
Qed.

Lemma Reachable_ids params cfgs sts :
  Reachable params cfgs sts -> map id sts = map type cfgs.
Proof.
  induction 1 as [| sts sts' dt _ IH _ Htick].
  - unfold resetSimulation. rewrite map_map. reflexivity.
  - rewrite (tickAll_ids _ _ _ _ _ Htick). exact IH.
Qed.

(** Along a run there is one body per surface, in the order of the table:
    the identifiers of the states are the types of the surfaces. *)
Theorem states_stay_aligned_with_surfaces params cfgs sts :
  Reachable params cfgs sts ->
  map id sts = map type cfgs /\ List.length sts = List.length cfgs.
Proof.
  intros R. pose proof (Reachable_ids _ _ _ R) as H. split; [exact H |].
  rewrite <- (length_map id sts), H. apply length_map.
Qed.

Lemma states_stay_aligned_with_surfaces_witness :
  exists sts,
    runFrom timedParams SURFACES [2 # 25; 1 # 5; 1] = Some sts /\
    map id sts = [ICE; NORMAL; ROUGH] /\ List.length sts = 3%nat.
Proof.
  destruct (runFrom timedParams SURFACES [2 # 25; 1 # 5; 1]) as [sts |] eqn:E;
    [| discriminate].
  exists sts. split; [reflexivity |].
  apply (states_stay_aligned_with_surfaces timedParams SURFACES sts).
  apply runFrom_Reachable with [2 # 25; 1 # 5; 1]; [| exact E].
  repeat constructor; discriminate.
Defined.

(** On the states of a run [loop] never raises: every surface looked up is
    found, whatever the timestamps and the [isRunning] flag. *)
Theorem loop_never_raises params cfgs isRunning time lastTime sts :
  Reachable params cfgs sts ->
  exists out,
    loop params cfgs isRunning time lastTime sts = Some out /\
    lastTimeRef out = time /\
    List.length (newStates out) = List.length sts.
Proof.
  intros R. unfold loop.
  destruct (tickAll_total params cfgs (simStepOf time lastTime) sts R)
    as [sts' E].
  rewrite E.
  assert (List.length sts' = List.length sts) as Hlen.
  { rewrite <- (length_map id sts'), (tickAll_ids _ _ _ _ _ E).
    apply length_map. }
  destruct (negb (currentlyMoving sts') && isRunning);
    eexists; repeat split; assumption.
Qed.

Lemma loop_never_raises_witness :
  exists out,
    loop stuckParams SURFACES false 7 3
      (resetSimulation SURFACES stuckParams) = Some out /\
    lastTimeRef out = 7 /\
    List.length (newStates out) = 3%nat.
Proof.
  apply (loop_never_raises stuckParams SURFACES false 7 3
           (resetSimulation SURFACES stuckParams)).
  constructor.
Defined.

(** A body whose surface is not in the table makes the tick raise, unless
    the body is already finished. *)
Theorem missing_surface_raises params cfgs dt s :
  findSurface cfgs (id s) = None ->
  (isFinished s = false -> stepState params cfgs dt s = None) /\
  (isFinished s = true -> stepState params cfgs dt s = Some s) /\
  (isFinished s = false ->
   forall before after, tickAll params cfgs dt (before ++ s :: after) = None).
Proof.
  intros F.
  assert (isFinished s = false -> stepState params cfgs dt s = None) as Hnone
    by (intros Hl; unfold stepState; now rewrite Hl, F).
  split; [exact Hnone |]. split; [apply stepState_finished |].
  intros Hl before after. induction before as [| b rest IH]; simpl.
  - now rewrite (Hnone Hl).
  - destruct (stepState params cfgs dt b); [| reflexivity].
    now rewrite IH.
Qed.

Lemma missing_surface_raises_witness :
  stepState INITIAL_PARAMS [floorSurface] 1
    (mkState ICE 0 0 0 0 false static 0 150) = None.
Proof.
  apply (missing_surface_raises INITIAL_PARAMS [floorSurface] 1
           (mkState ICE 0 0 0 0 false static 0 150));
    reflexivity.
Defined.

(** ** The life of one body *)

(** A body never goes back in the order Stationary, Moving, Arrived; in
    particular no tick returns it to Stationary. *)
Theorem status_never_goes_back params cfgs dt s s' :
  flagged s ->
  stepState params cfgs dt s = Some s' ->
  (statusRank (status s) <= statusRank (status s'))%nat /\
  (status s' = static -> status s = static).
Proof.
  intros Hflag Hstep.
  destruct (stepState_inv _ _ _ _ _ Hstep) as [[_ ->] | [Hl [surface [_ ->]]]];
    [split; [apply Nat.le_refl | trivial] |].
  pose proof (flagged_live _ Hflag Hl) as Hnf.
  unfold advance. destruct (status s) eqn:Est.
  - destruct (Qgt_bool _ _); simpl; split; auto.
  - simpl.
    destruct (Qle_bool _ 0 && Qle_bool _ _); destruct (Qge_bool _ _);
      simpl; split; auto; discriminate.
  - congruence.
Qed.

Lemma status_never_goes_back_witness :
  exists s',
    stepState timedParams SURFACES 1 coastingBody = Some s' /\
    (statusRank (status coastingBody) <= statusRank (status s'))%nat.
Proof.
  destruct (stepState timedParams SURFACES 1 coastingBody) as [s' |] eqn:E;
    [| discriminate].
  exists s'. split; [reflexivity |].
  apply (status_never_goes_back timedParams SURFACES 1 coastingBody s');
    [reflexivity | exact E].
Defined.

(** The elapsed time of a body never decreases over a tick of non-negative
    step, and only a Moving body's elapsed time changes. *)
Theorem elapsed_time_monotone params cfgs dt s s' :
  0 <= dt ->
  stepState params cfgs dt s = Some s' ->
  timeElapsed s <= timeElapsed s' /\
  (status s <> moving -> timeElapsed s' = timeElapsed s) /\
  (status s = moving -> isFinished s = false ->
   timeElapsed s' = timeElapsed s + dt).
Proof.
  intros Hdt Hstep.
  destruct (stepState_inv _ _ _ _ _ Hstep) as [[Hf ->] | [Hl [surface [_ ->]]]].
  - repeat split; try reflexivity; try lra. congruence.
  - unfold advance. destruct (status s) eqn:Est.
    + destruct (Qgt_bool _ _); simpl; repeat split; try lra; congruence.
    + simpl. repeat split; try lra. congruence.
    + simpl. repeat split; try lra. discriminate.
Qed.

Lemma elapsed_time_monotone_witness :
  exists s',
    stepState timedParams SURFACES 1 coastingBody = Some s' /\
    timeElapsed coastingBody <= timeElapsed s'.
Proof.
  destruct (stepState timedParams SURFACES 1 coastingBody) as [s' |] eqn:E;
    [| discriminate].
  exists s'. split; [reflexivity |].
  apply (elapsed_time_monotone timedParams SURFACES 1 coastingBody s');
    [discriminate | exact E].
Defined.

(** An Arrived body of a run is either at the target distance or at rest
    with no acceleration: the two ways of finishing the code has. *)
Theorem finished_at_target_or_at_rest params cfgs sts :
  Reachable params cfgs sts ->
  Forall
    (fun s =>
       status s = finished ->
       position s = distance params \/ (velocity s = 0 /\ acceleration s = 0))
    sts.
Proof.
  apply Reachable_Forall.
  - unfold resetSimulation. apply Forall_forall. intros s Hs.
    apply in_map_iff in Hs. destruct Hs as [c [<- _]]. discriminate.
  - intros dt s s' _ HP Hstep.
    destruct (stepState_inv _ _ _ _ _ Hstep) as [[_ ->] | [_ [surface [_ ->]]]];
      [exact HP |].
    unfold advance. destruct (status s) eqn:Est.
    + destruct (Qgt_bool _ _); simpl; discriminate.
    + simpl.
      destruct (Qle_bool _ 0 && Qle_bool _ _); destruct (Qge_bool _ _);
        simpl; auto; discriminate.
    + simpl. intros _. destruct (HP eq_refl) as [Hp | [Hv _]]; auto.
Qed.

Lemma finished_at_target_or_at_rest_witness :
  exists sts,
    runFrom timedParams SURFACES [2 # 25; 1 # 5; 1] = Some sts /\
    Forall
      (fun s =>
         status s = finished ->
         position s = 500 \/ (velocity s = 0 /\ acceleration s = 0))
      sts.
Proof.
  destruct (runFrom timedParams SURFACES [2 # 25; 1 # 5; 1]) as [sts |] eqn:E;
    [| discriminate].
  exists sts. split; [reflexivity |].
  apply (finished_at_target_or_at_rest timedParams SURFACES sts).
  apply runFrom_Reachable with [2 # 25; 1 # 5; 1]; [| exact E].
  repeat constructor; discriminate.
Defined.



(** A tick that leaves a Moving body Moving is one step of semi-implicit
    Euler integration under Newton's second law: mass times acceleration is
    the push minus the kinetic friction, the velocity gains acceleration
    times the step, and the position gains the new velocity times the
    step. *)
Theorem moving_tick_integrates params cfgs surface dt s s' :
  0 < mass params ->
  status s = moving ->
  isFinished s = false ->
  findSurface cfgs (id s) = Some surface ->
  stepState params cfgs dt s = Some s' ->
  status s' = moving ->
  mass params * acceleration s' == currentAppliedForce s' - frictionForce s' /\
  frictionForce s' = kineticFriction params surface /\
  velocity s' = velocity s + acceleration s' * dt /\
  position s' = position s + velocity s' * dt /\
  timeElapsed s' = timeElapsed s + dt.
Proof.
  intros Hm Hst Hl F Hstep.
  rewrite (stepState_live params cfgs dt s surface Hl F) in Hstep.
  injection Hstep as <-.
  unfold advance. rewrite Hst. simpl.
  destruct (Qle_bool _ 0 && Qle_bool _ _); simpl;
    [destruct (Qge_bool _ _); discriminate |].
  destruct (Qge_bool _ _); simpl; [discriminate |].
  intros _. repeat split. field. lra.
Qed.

Lemma moving_tick_integrates_witness :
  exists s',
    stepState INITIAL_PARAMS SURFACES (2 # 25)
      (mkState NORMAL 0 0 0 0 false moving (2943 # 100) 150) = Some s' /\
    10 * acceleration s' == 150 - (2943 # 100) /\
    velocity s' = 0 + acceleration s' * (2 # 25).
Proof.
  destruct (stepState INITIAL_PARAMS SURFACES (2 # 25)
              (mkState NORMAL 0 0 0 0 false moving (2943 # 100) 150))
    as [s' |] eqn:E; [| discriminate].
  exists s'. split; [reflexivity |].
  destruct (moving_tick_integrates INITIAL_PARAMS SURFACES floorSurface
              (2 # 25) (mkState NORMAL 0 0 0 0 false moving (2943 # 100) 150)
              s') as [H1 [H2 [H3 _]]];
    try reflexivity; try exact E.
  - injection E as <-. reflexivity.
  - split; [| exact H3].
    rewrite H1. injection E as <-. reflexivity.
Defined.

(** ** Continuous push *)

Lemma pushForce_continuous params s :
  forceMode params = Continuous -> pushForce params s = appliedForce params.
Proof. intros H. unfold pushForce, isForceActive. now rewrite H. Qed.

Lemma findSurface_In cfgs i surface :
  findSurface cfgs i = Some surface -> In surface cfgs.
Proof. intros H. apply find_some in H. tauto. Qed.

Lemma kinetic_below_static params surface :
  0 < mass params ->
  kineticFrictionCoeff surface <= staticFrictionCoeff surface ->
  kineticFriction params surface <= maxStaticFriction params surface.
Proof.
  intros Hm Hmu. unfold kineticFriction, maxStaticFriction, normalForce, GRAVITY.
  apply Qmult_le_compat_r; [exact Hmu |].
  apply Qmult_le_0_compat; [lra | discriminate].
Qed.

(** In continuous mode every body that has left the Stationary status is
    pushed above the static limit of its surface, and if it is Arrived it is
    at the target. *)
Lemma continuous_invariant params cfgs sts :
  forceMode params = Continuous ->
  0 < mass params ->
  Forall (fun c => kineticFrictionCoeff c <= staticFrictionCoeff c) cfgs ->
  Reachable params cfgs sts ->
  Forall
    (fun s =>
       (status s <> static ->
        exists surface,
          findSurface cfgs (id s) = Some surface /\
          maxStaticFriction params surface < appliedForce params) /\
       (status s = finished -> position s = distance params))
    sts.
Proof.
  intros Hmode Hm Hmu. apply Reachable_Forall.
  - unfold resetSimulation. apply Forall_forall. intros s Hs.
    apply in_map_iff in Hs. destruct Hs as [c [<- _]]. simpl.
    split; [congruence | discriminate].
  - intros dt s s' _ [Hpush Hfin] Hstep.
    destruct (stepState_inv _ _ _ _ _ Hstep) as [[_ ->] | [_ [surface [F ->]]]];
      [split; assumption |].
    rewrite advance_id.
    unfold advance. rewrite (pushForce_continuous params s Hmode).
    destruct (status s) eqn:Est.
    + destruct (Qgt_bool _ _) eqn:E; simpl.
      * split; [| discriminate]. intros _. exists surface.
        split; [exact F | now apply Qgt_bool_iff].
      * split; [congruence | discriminate].
    + destruct Hpush as [surface' [F' Hgt]]; [discriminate |].
      assert (surface' = surface) as -> by congruence.
      assert (kineticFriction params surface < appliedForce params) as Hkin.
      { pose proof (kinetic_below_static params surface Hm) as Hle.
        rewrite Forall_forall in Hmu.
        specialize (Hle (Hmu surface (findSurface_In _ _ _ F))). lra. }
      apply Qle_bool_false_iff in Hkin. simpl. rewrite Hkin, andb_false_r.
      destruct (Qge_bool _ _); simpl; split;
        try (intros _; exists surface; split; [exact F | exact Hgt]);
        try reflexivity; discriminate.
    + simpl. split; [| intros _; now apply Hfin].
      intros _. apply Hpush. discriminate.
Qed.

(** Under a continuous push, on surfaces whose kinetic coefficient does not
    exceed the static one, no body of a run stops short of the target: an
    Arrived body is at the target distance, and over a tick the velocity of
    a body never decreases. *)
Theorem continuous_push_never_stops_short params cfgs sts :
  forceMode params = Continuous ->
  0 < mass params ->
  Forall (fun c => kineticFrictionCoeff c <= staticFrictionCoeff c) cfgs ->
  Reachable params cfgs sts ->
  Forall (fun s => status s = finished -> position s = distance params) sts /\
  (forall dt sts',
     0 <= dt -> tickAll params cfgs dt sts = Some sts' ->
     Forall2 (fun s s' => velocity s <= velocity s') sts sts').
Proof.
  intros Hmode Hm Hmu R.
  pose proof (continuous_invariant params cfgs sts Hmode Hm Hmu R) as Hinv.
  split.
  - revert Hinv. apply Forall_impl. intros s [_ H]. exact H.
  - intros dt sts' Hdt Htick. apply tickAll_Forall2 in Htick.
    revert Hinv Htick. apply Forall2_refine.
    intros s s' [Hpush _] Hstep.
    destruct (stepState_inv _ _ _ _ _ Hstep) as [[_ ->] | [_ [surface [F ->]]]];
      [lra |].
    unfold advance. rewrite (pushForce_continuous params s Hmode).
    destruct (status s) eqn:Est.
    + destruct (Qgt_bool _ _); simpl; lra.
    + destruct Hpush as [surface' [F' Hgt]]; [discriminate |].
      assert (surface' = surface) as -> by congruence.
      assert (kineticFriction params surface < appliedForce params) as Hkin.
      { pose proof (kinetic_below_static params surface Hm) as Hle.
        rewrite Forall_forall in Hmu.
        specialize (Hle (Hmu surface (findSurface_In _ _ _ F))). lra. }
      pose proof (accel_step_nonneg _ _ _ dt Hm Hkin Hdt) as Hacc.
      apply Qle_bool_false_iff in Hkin. simpl. rewrite Hkin, andb_false_r.
      lra.
    + simpl. lra.
Qed.

Lemma continuous_push_never_stops_short_witness :
  exists sts,
    runFrom INITIAL_PARAMS SURFACES [2 # 25; 10] = Some sts /\
    Forall (fun s => status s = finished -> position s = 500) sts.
Proof.
  destruct (runFrom INITIAL_PARAMS SURFACES [2 # 25; 10]) as [sts |] eqn:E;
    [| discriminate].
  exists sts. split; [reflexivity |].
  apply (continuous_push_never_stops_short INITIAL_PARAMS SURFACES sts).
  - reflexivity.
  - reflexivity.
  - repeat constructor; discriminate.
  - apply runFrom_Reachable with [2 # 25; 10]; [| exact E].
    repeat constructor; discriminate.
Defined.

(** ** Arrival in finitely many ticks *)

Lemma stepMany_finished params cfgs dts s :
  isFinished s = true -> stepMany params cfgs dts s = Some s.
Proof.
  intros H. induction dts as [| dt rest IH]; simpl; [reflexivity |].
  now rewrite (stepState_finished params cfgs dt s H).
Qed.

Lemma step_gain (a d dt v : Q) :
  0 < a -> 0 < d -> d <= dt -> 0 <= v -> a * d * d <= (v + a * dt) * dt.
Proof.
  intros Ha Hd Hdt Hv.
  assert (a * d <= v + a * dt) as H1.
  { assert (a * d <= a * dt) by (apply Qmult_le_l; assumption). lra. }
  assert (0 <= a * d) as H0 by (apply Qmult_le_0_compat; lra).
  apply Qle_trans with ((a * d) * dt).
  - rewrite (Qmult_comm (a * d) d), (Qmult_comm (a * d) dt).
    apply Qmult_le_compat_r; assumption.
  - apply Qmult_le_compat_r; [exact H1 | lra].
Qed.

(** A Moving body under a continuous push stronger than the kinetic
    friction reaches the target: if every tick has a step of at least
    [d] > 0 and the distance still to go is at most (number of ticks) *
    a * d * d, with a the acceleration (F - F_k) / m, then after those ticks
    the body is Arrived, at the target distance. *)
Theorem continuous_push_arrives params cfgs surface d dts :
  forceMode params = Continuous ->
  0 < mass params ->
  kineticFriction params surface < appliedForce params ->
  0 < d ->
  Forall (fun dt => d <= dt) dts ->
  forall s,
    status s = moving ->
    isFinished s = false ->
    findSurface cfgs (id s) = Some surface ->
    0 <= velocity s ->
    position s < distance params ->
    distance params - position s
      <= inject_Z (Z.of_nat (List.length dts))
         * ((appliedForce params - kineticFriction params surface)
            / mass params * d * d) ->
    exists s',
      stepMany params cfgs dts s = Some s' /\
      status s' = finished /\ isFinished s' = true /\
      position s' = distance params.
Proof.
  intros Hmode Hm Hkin Hd Hdts.
  set (a := (appliedForce params - kineticFriction params surface)
            / mass params).
  assert (0 < a) as Ha by (apply accel_positive; assumption).
  induction Hdts as [| dt rest Hdt _ IH]; intros s Hst Hl F Hv Hp Hgo.
  - fold a in Hgo.
    change (inject_Z (Z.of_nat (List.length (@nil Q)))) with 0 in Hgo.
    assert (0 * (a * d * d) == 0) as Hz by ring.
    rewrite Hz in Hgo. lra.
  - simpl stepMany. rewrite (stepState_live params cfgs dt s surface Hl F).
    pose proof (step_gain a d dt (velocity s) Ha Hd Hdt Hv) as Hgain.
    assert (0 <= velocity s + a * dt) as Hv1.
    { assert (0 <= a * dt) by (apply Qmult_le_0_compat; lra). lra. }
    assert (advance params surface dt s =
            let newPos := position s + (velocity s + a * dt) * dt in
            let arrived := Qge_bool newPos (distance params) in
            {| id := id s;
               status := if arrived then finished else moving;
               acceleration := a;
               velocity := velocity s + a * dt;
               position := if arrived then distance params else newPos;
               timeElapsed := timeElapsed s + dt;
               isFinished :=
                 Status_eqb (if arrived then finished else moving) finished;
               frictionForce := kineticFriction params surface;
               currentAppliedForce := appliedForce params |}) as Hadv.
    { unfold advance. rewrite (pushForce_continuous params s Hmode), Hst.
      pose proof Hkin as Hk. apply Qle_bool_false_iff in Hk.
      simpl. rewrite Hk, andb_false_r. reflexivity. }
    rewrite Hadv. clear Hadv. simpl.
    destruct (Qge_bool (position s + (velocity s + a * dt) * dt)
                (distance params)) eqn:Earr.
    + eexists. split; [apply stepMany_finished; reflexivity |].
      repeat split.
    + apply IH; simpl; try reflexivity; try assumption.
      * qprop. exact Earr.
      * qprop.
        change (List.length (dt :: rest)) with (S (List.length rest)) in Hgo.
        rewrite Nat2Z.inj_succ, <- Z.add_1_r, inject_Z_plus in Hgo.
        change (inject_Z 1) with 1 in Hgo.
        fold a in Hgo. lra.
Qed.

Lemma continuous_push_arrives_witness :
  exists s',
    stepMany INITIAL_PARAMS SURFACES [3; 3; 3; 3; 3]
      (mkState NORMAL 0 0 0 0 false moving (2943 # 100) 150) = Some s' /\
    status s' = finished /\ isFinished s' = true /\
    position s' = 500.
Proof.
  apply (continuous_push_arrives INITIAL_PARAMS SURFACES floorSurface 3
           [3; 3; 3; 3; 3]).
  - reflexivity.
  - reflexivity.
  - reflexivity.
  - reflexivity.
  - repeat constructor; discriminate.
  - reflexivity.
  - reflexivity.
  - reflexivity.
  - discriminate.
  - reflexivity.
  - discriminate.
Defined.

(** * Further properties of the surface table *)

Lemma handleFrictionChange_map type0 newKinetic prev :
  map type (handleFrictionChange type0 newKinetic prev) = map type prev.
Proof.
  unfold handleFrictionChange. rewrite map_map. apply map_ext.
  intros s. destruct (SurfaceType_eqb (type s) type0); reflexivity.
Qed.

(** Adjustments compose: on one surface the later value wins, and
    adjustments of two different surfaces can be made in either order. *)
Theorem handleFrictionChange_composes t1 t2 k1 k2 prev :
  handleFrictionChange t1 k2 (handleFrictionChange t1 k1 prev)
  = handleFrictionChange t1 k2 prev /\
  (t1 <> t2 ->
   handleFrictionChange t1 k1 (handleFrictionChange t2 k2 prev)
   = handleFrictionChange t2 k2 (handleFrictionChange t1 k1 prev)).
Proof.
  unfold handleFrictionChange. split.
  - rewrite map_map. apply map_ext. intros s.
    destruct (SurfaceType_eqb (type s) t1) eqn:E; simpl; rewrite E; reflexivity.
  - intros Hne. rewrite !map_map. apply map_ext. intros s.
    destruct (SurfaceType_eqb (type s) t1) eqn:E1;
      destruct (SurfaceType_eqb (type s) t2) eqn:E2; simpl;
      rewrite ?E1, ?E2; try reflexivity.
    apply SurfaceType_eqb_eq in E1, E2. congruence.
Qed.

Lemma handleFrictionChange_composes_witness :
  handleFrictionChange ICE (2 # 10) (handleFrictionChange ROUGH (8 # 10) SURFACES)
  = handleFrictionChange ROUGH (8 # 10) (handleFrictionChange ICE (2 # 10) SURFACES).
Proof.
  apply (handleFrictionChange_composes ICE ROUGH (2 # 10) (8 # 10) SURFACES).
  discriminate.
Defined.

(** * Results and chart *)

Lemma results_Forall2 params cfgs sts rs :
  results params cfgs sts = Some rs ->
  Forall2 (fun s r => resultOf params cfgs s = Some r) sts rs.
Proof.
  revert rs. induction sts as [| s rest IH]; simpl; intros rs.
  - intros [= <-]. constructor.
  - destruct (resultOf params cfgs s) as [r |] eqn:E; [| discriminate].
    destruct (results params cfgs rest) as [rs' |]; [| discriminate].
    intros [= <-]. constructor; [exact E | now apply IH].
Qed.

Lemma results_total params cfgs sts :
  Forall (Shape params cfgs) sts ->
  exists rs, results params cfgs sts = Some rs.
Proof.
  induction 1 as [| s rest [_ [surface F] _ _] _ [rs IH]]; simpl;
    [now exists [] |].
  unfold resultOf. rewrite F, IH. eexists. reflexivity.
Qed.

(** The results of a run are always computed, one per body: the final time
    is [Infinity] exactly for the bodies that are not Arrived and the elapsed
    time for those that are; a Stationary body did not move; the velocity
    reported as maximal is the current one; the static limit is
    mu_s * mass * g of the body's surface. *)
Theorem results_of_run params cfgs sts :
  Reachable params cfgs sts ->
  exists rs,
    results params cfgs sts = Some rs /\
    Forall2
      (fun s r =>
         SimulationResult.surface r = id s /\
         (SimulationResult.finalTime r = None <-> status s <> finished) /\
         (status s = finished ->
          SimulationResult.finalTime r = Some (timeElapsed s)) /\
         (status s = static -> SimulationResult.didMove r = false) /\
         SimulationResult.maxVelocity r = velocity s /\
         exists surface,
           findSurface cfgs (id s) = Some surface /\
           SimulationResult.staticFrictionLimit r
           = staticFrictionCoeff surface * (mass params * GRAVITY))
      sts rs.
Proof.
  intros R. apply Reachable_Shape in R.
  destruct (results_total params cfgs sts R) as [rs E].
  exists rs. split; [exact E |].
  apply results_Forall2 in E. revert R E. apply Forall2_refine.
  intros s r [Hflag _ Hzero _]. unfold resultOf.
  destruct (findSurface cfgs (id s)) as [surface |] eqn:F; [| discriminate].
  intros [= <-]. simpl. unfold flagged in Hflag. rewrite Hflag.
  repeat split.
  - destruct (status s); simpl; congruence.
  - destruct (status s); simpl; congruence.
  - intros ->. reflexivity.
  - intros Hst. destruct (Hzero Hst) as [-> _]. reflexivity.
  - now exists surface.
Qed.

Lemma results_of_run_witness :
  exists sts rs,
    runFrom timedParams SURFACES [2 # 25; 1 # 5; 1] = Some sts /\
    results timedParams SURFACES sts = Some rs /\
    map SimulationResult.finalTime rs = [None; Some (6 # 5); Some (6 # 5)].
Proof.
  destruct (runFrom timedParams SURFACES [2 # 25; 1 # 5; 1]) as [sts |] eqn:E;
    [| discriminate].
  assert (Reachable timedParams SURFACES sts) as R.
  { apply runFrom_Reachable with [2 # 25; 1 # 5; 1]; [| exact E].
    repeat constructor; discriminate. }
  destruct (results_of_run timedParams SURFACES sts R) as [rs [Hrs _]].
  exists sts, rs. split; [reflexivity |]. split; [exact Hrs |].
  vm_compute in E. injection E as <-.
  vm_compute in Hrs. injection Hrs as <-. reflexivity.
Defined.

(** What the chart draws for a run: the bar of every body that is not
    Arrived has time 0, the same value as a race won in no time; a
    Stationary body also has velocity 0; for an Arrived body that left
    position 0 the time drawn is the elapsed time rounded to hundredths. *)
Theorem chart_of_run params cfgs sts rs :
  Reachable params cfgs sts ->
  results params cfgs sts = Some rs ->
  Forall2
    (fun s d =>
       ChartDatum.name d = id s /\
       (status s <> finished -> ChartDatum.time d = 0) /\
       (status s = static -> ChartDatum.velocity d = 0) /\
       (status s = finished -> 0 < position s ->
        ChartDatum.time d = toFixed2 (timeElapsed s) /\
        ChartDatum.velocity d = toFixed2 (velocity s)))
    sts (chartData rs).
Proof.
  intros R E. apply Reachable_Shape in R. apply results_Forall2 in E.
  unfold chartData.
  induction E as [| s r rest rs' Hr _ IH]; simpl; constructor.
  - inversion R as [| ? ? [Hflag _ Hzero _] _]; subst.
    unfold resultOf in Hr.
    destruct (findSurface cfgs (id s)) as [surface |]; [| discriminate].
    injection Hr as <-. simpl. unfold flagged in Hflag. rewrite Hflag.
    split; [reflexivity |]. split; [| split].
    + intros Hnf. destruct (Qgt_bool (position s) 0); [| reflexivity].
      destruct (status s); simpl; congruence.
    + intros Hst. destruct (Hzero Hst) as [-> _]. reflexivity.
    + intros Hfin Hpos. apply Qgt_bool_iff in Hpos. rewrite Hpos, Hfin.
      split; reflexivity.
  - apply IH. now inversion R.
Qed.

Lemma chart_of_run_witness :
  exists sts rs,
    runFrom timedParams SURFACES [2 # 25; 1 # 5; 1] = Some sts /\
    results timedParams SURFACES sts = Some rs /\
    Forall2
      (fun s d =>
         ChartDatum.name d = id s /\
         (status s <> finished -> ChartDatum.time d = 0) /\
         (status s = static -> ChartDatum.velocity d = 0) /\
         (status s = finished -> 0 < position s ->
          ChartDatum.time d = toFixed2 (timeElapsed s) /\
          ChartDatum.velocity d = toFixed2 (velocity s)))
      sts (chartData rs).
Proof.
  destruct (runFrom timedParams SURFACES [2 # 25; 1 # 5; 1]) as [sts |] eqn:E;
    [| discriminate].
  assert (Reachable timedParams SURFACES sts) as R.
  { apply runFrom_Reachable with [2 # 25; 1 # 5; 1]; [| exact E].
    repeat constructor; discriminate. }
  destruct (results timedParams SURFACES sts) as [rs |] eqn:Hrs;
    [| vm_compute in E; injection E as <-; discriminate].
  exists sts, rs. split; [reflexivity |]. split; [exact Hrs |].
  exact (chart_of_run timedParams SURFACES sts rs R Hrs).
Defined.

(** * Controls *)

(** Whatever is typed in the mass entry, not-a-number included, the mass
    handed on lies in [1, 1000]; a value in that range is handed on as it is,
    not-a-number becomes 1, and no other parameter changes. *)
Theorem handleMassChange_clamps parsed params :
  let p' := Controls.handleMassChange parsed params in
  (1 <= mass p' /\ mass p' <= 1000) /\
  (forall v, parsed = Some v -> 1 <= v -> v <= 1000 -> mass p' = v) /\
  (forall v, parsed = Some v -> v < 1 -> mass p' = 1) /\
  (forall v, parsed = Some v -> 1000 < v -> mass p' = 1000) /\
  (parsed = None -> mass p' = 1) /\
  (distance p', appliedForce p', forceMode p', forceDuration p',
   forceDistanceLimit p')
  = (distance params, appliedForce params, forceMode params,
     forceDuration params, forceDistanceLimit params).
Proof.
  unfold Controls.handleMassChange. simpl.
  split; [| split; [| split; [| split; [| split]]]].
  - destruct parsed as [v |]; [| split; discriminate].
    destruct (Qgt_bool v 1000) eqn:E1; [split; discriminate |].
    destruct (Qlt_bool v 1) eqn:E2; qprop; split; lra.
  - intros v -> Hlo Hhi.
    assert (Qgt_bool v 1000 = false) as -> by now apply Qlt_bool_false_iff.
    assert (Qlt_bool v 1 = false) as -> by now apply Qlt_bool_false_iff.
    reflexivity.
  - intros v -> Hlo.
    assert (Qgt_bool v 1000 = false) as ->
      by (apply Qlt_bool_false_iff; lra).
    assert (Qlt_bool v 1 = true) as -> by now apply Qlt_bool_iff.
    reflexivity.
  - intros v -> Hhi.
    assert (Qgt_bool v 1000 = true) as -> by now apply Qgt_bool_iff.
    reflexivity.
  - intros ->. reflexivity.
  - reflexivity.
Qed.

Lemma handleMassChange_clamps_witness :
  mass (Controls.handleMassChange (Some (1 # 2)) INITIAL_PARAMS) = 1 /\
  mass (Controls.handleMassChange (Some 250) INITIAL_PARAMS) = 250 /\
  mass (Controls.handleMassChange None INITIAL_PARAMS) = 1.
Proof.
  destruct (handleMassChange_clamps (Some (1 # 2)) INITIAL_PARAMS)
    as [_ [_ [H1 _]]].
  destruct (handleMassChange_clamps (Some 250) INITIAL_PARAMS)
    as [_ [H2 _]].
  destruct (handleMassChange_clamps None INITIAL_PARAMS)
    as [_ [_ [_ [_ [H3 _]]]]].
  split; [apply (H1 (1 # 2)); reflexivity |].
  split; [apply (H2 250); reflexivity || discriminate |].
  apply H3. reflexivity.
Defined.

(** Whatever is typed in the force entry, the applied force handed on lies
    in [0, 2000]; a value in that range is handed on as it is, not-a-number
    becomes 0, and no other parameter changes. *)
Theorem handleForceChange_clamps parsed params :
  let p' := Controls.handleForceChange parsed params in
  (0 <= appliedForce p' /\ appliedForce p' <= 2000) /\
  (forall v, parsed = Some v -> 0 <= v -> v <= 2000 -> appliedForce p' = v) /\
  (parsed = None -> appliedForce p' = 0) /\
  (mass p', distance p', forceMode p', forceDuration p',
   forceDistanceLimit p')
  = (mass params, distance params, forceMode params,
     forceDuration params, forceDistanceLimit params).
Proof.
  unfold Controls.handleForceChange. simpl.
  split; [| split; [| split]].
  - destruct parsed as [v |]; [| split; discriminate].
    destruct (Qgt_bool v 2000) eqn:E1; [split; discriminate |].
    destruct (Qlt_bool v 0) eqn:E2; qprop; split; lra.
  - intros v -> Hlo Hhi.
    assert (Qgt_bool v 2000 = false) as -> by now apply Qlt_bool_false_iff.
    assert (Qlt_bool v 0 = false) as -> by now apply Qlt_bool_false_iff.
    reflexivity.
  - intros ->. reflexivity.
  - reflexivity.
Qed.

Lemma handleForceChange_clamps_witness :
  appliedForce (Controls.handleForceChange (Some 2500) INITIAL_PARAMS)
    <= 2000 /\
  appliedForce (Controls.handleForceChange (Some 30) INITIAL_PARAMS) = 30.
Proof.
  destruct (handleForceChange_clamps (Some 2500) INITIAL_PARAMS)
    as [[_ H1] _].
  destruct (handleForceChange_clamps (Some 30) INITIAL_PARAMS)
    as [_ [H2 _]].
  split; [exact H1 |].
  apply (H2 30); reflexivity || discriminate.
Defined.

(** The duration and distance-limit entries only have a floor (0.1 s and
    1 m) and do not replace not-a-number.  When they hand on a number, a
    run started with it begins with the push active on every body under
    the mode of that entry. *)
Theorem limit_entries_start_with_active_push parsed params cfgs :
  (forall p',
     Controls.handleDurationChange parsed params = Some p' ->
     1 # 10 <= forceDuration p' /\
     (forceMode p' = Timed ->
      Forall (fun s => pushForce p' s = appliedForce p')
        (resetSimulation cfgs p'))) /\
  (forall p',
     Controls.handleDistanceChange parsed params = Some p' ->
     1 <= forceDistanceLimit p' /\
     (forceMode p' = Distance ->
      Forall (fun s => pushForce p' s = appliedForce p')
        (resetSimulation cfgs p'))) /\
  (Controls.handleDurationChange parsed params = None <-> parsed = None) /\
  (Controls.handleDistanceChange parsed params = None <-> parsed = None).
Proof.
  unfold Controls.handleDurationChange, Controls.handleDistanceChange.
  split; [| split; [| split]].
  - intros p'. destruct parsed as [v |]; [| discriminate].
    intros [= <-]. simpl.
    assert (1 # 10 <= (if Qlt_bool v (1 # 10) then 1 # 10 else v)) as Hfloor
      by (destruct (Qlt_bool v (1 # 10)) eqn:E; qprop; lra).
    split; [exact Hfloor |].
    intros Hmode. unfold resetSimulation. apply Forall_forall. intros s Hs.
    apply in_map_iff in Hs. destruct Hs as [c [<- _]].
    unfold pushForce, isForceActive. simpl. rewrite Hmode.
    assert (Qlt_bool 0 (if Qlt_bool v (1 # 10) then 1 # 10 else v) = true)
      as -> by (apply Qlt_bool_iff; lra).
    reflexivity.
  - intros p'. destruct parsed as [v |]; [| discriminate].
    intros [= <-]. simpl.
    assert (1 <= (if Qlt_bool v 1 then 1 else v)) as Hfloor
      by (destruct (Qlt_bool v 1) eqn:E; qprop; lra).
    split; [exact Hfloor |].
    intros Hmode. unfold resetSimulation. apply Forall_forall. intros s Hs.
    apply in_map_iff in Hs. destruct Hs as [c [<- _]].
    unfold pushForce, isForceActive. simpl. rewrite Hmode.
    assert (Qlt_bool 0 (if Qlt_bool v 1 then 1 else v) = true)
      as -> by (apply Qlt_bool_iff; lra).
    reflexivity.
  - destruct parsed; split; congruence.
  - destruct parsed; split; congruence.
Qed.

Lemma limit_entries_start_with_active_push_witness :
  exists p',
    Controls.handleDurationChange (Some 0) timedParams = Some p' /\
    1 # 10 <= forceDuration p' /\
    Forall (fun s => pushForce p' s = appliedForce p')
      (resetSimulation SURFACES p').
Proof.
  destruct (limit_entries_start_with_active_push (Some 0) timedParams SURFACES)
    as [H _].
  destruct (Controls.handleDurationChange (Some 0) timedParams)
    as [p' |] eqn:E; [| discriminate].
  destruct (H p' eq_refl) as [H1 H2].
  exists p'. split; [reflexivity |]. split; [exact H1 |].
  apply H2. injection E as <-. reflexivity.
Defined.

(** A mass that came through the mass entry is positive, so for every run
    configured with it the numeric invariant of the engine holds: no
    negative velocity, no position beyond the target. *)
Theorem entered_mass_keeps_runs_bounded parsed params cfgs sts :
  0 < distance params ->
  Reachable (Controls.handleMassChange parsed params) cfgs sts ->
  Forall
    (fun s =>
       0 <= velocity s /\ position s <= distance params /\
       (status s <> finished -> position s < distance params))
    sts.
Proof.
  intros Hd R.
  assert (0 < mass (Controls.handleMassChange parsed params)) as Hm.
  { unfold Controls.handleMassChange. simpl.
    destruct parsed as [v |]; [| reflexivity].
    destruct (Qgt_bool v 1000) eqn:E1; [reflexivity |].
    destruct (Qlt_bool v 1) eqn:E2; qprop; lra. }
  pose proof (Reachable_Bounded _ cfgs Hm Hd sts R) as Hb.
  revert Hb. apply Forall_impl. intros s [Hv Hp Hl]. auto.
Qed.

Lemma entered_mass_keeps_runs_bounded_witness :
  exists sts,
    runFrom (Controls.handleMassChange (Some (-5)) timedParams) SURFACES
      [2 # 25; 1 # 5; 1] = Some sts /\
    Forall (fun s => 0 <= velocity s) sts.
Proof.
  destruct (runFrom (Controls.handleMassChange (Some (-5)) timedParams)
              SURFACES [2 # 25; 1 # 5; 1]) as [sts |] eqn:E;
    [| discriminate].
  exists sts. split; [reflexivity |].
  assert (Reachable (Controls.handleMassChange (Some (-5)) timedParams)
            SURFACES sts) as R.
  { apply runFrom_Reachable with [2 # 25; 1 # 5; 1]; [| exact E].
    repeat constructor; discriminate. }
  pose proof (entered_mass_keeps_runs_bounded (Some (-5)) timedParams
                SURFACES sts eq_refl R) as H.
  revert H. apply Forall_impl. intros s [Hv _]. exact Hv.
Defined.

(** * Track *)

Lemma Reachable_position_nonneg params cfgs sts :
  0 < mass params -> 0 < distance params ->
  Reachable params cfgs sts ->
  Forall (fun s => Bounded params s /\ 0 <= position s) sts.
Proof.
  intros Hm Hd. apply Reachable_Forall.
  - unfold resetSimulation. apply Forall_forall. intros s Hs.
    apply in_map_iff in Hs. destruct Hs as [c [<- _]].
    split; [constructor; simpl; intros; lra | simpl; lra].
  - intros dt s s' Hdt [Hb Hp] Hstep.
    destruct (stepState_inv _ _ _ _ _ Hstep) as [[_ ->] | [_ [surface [_ ->]]]];
      [split; assumption |].
    destruct (advance_kinematics params Hm surface dt s Hdt Hb)
      as [Hb' [Hmono _]].
    split; [exact Hb' | lra].
Qed.

Lemma progressFraction_bounds params s :
  0 < distance params -> 0 <= position s -> position s <= distance params ->
  0 <= Track.progressFraction params s /\
  Track.progressFraction params s <= 1 /\
  (position s == 0 -> Track.progressFraction params s == 0) /\
  (position s == distance params -> Track.progressFraction params s == 1).
Proof.
  intros Hd H0 H1. unfold Track.progressFraction.
  assert (0 <= position s / distance params) as Ha
    by (apply Qle_shift_div_l; [exact Hd | lra]).
  assert (position s / distance params <= 1) as Hb
    by (apply Qle_shift_div_r; [exact Hd | lra]).
  destruct (Q.min_spec (position s / distance params) 1)
    as [[_ ->] | [Hge ->]].
  - repeat split; try assumption.
    + intros Hz. rewrite Hz. unfold Qdiv. ring.
    + intros Hz. rewrite Hz. field. lra.
  - repeat split; try lra.
    intros Hz. rewrite Hz in Hge. unfold Qdiv in Hge.
    assert (0 * / distance params == 0) as Hzero by ring.
    rewrite Hzero in Hge. lra.
Qed.

(** The marker of a body of a run stays on the drawn track: its left offset
    is between 15 % and 85 %, 15 % for a Stationary body and 85 % for a body
    at the target distance. *)
Theorem track_marker_stays_on_track params cfgs sts :
  0 < mass params -> 0 < distance params ->
  Reachable params cfgs sts ->
  Forall
    (fun s =>
       15 <= Track.visualLeft params s /\
       Track.visualLeft params s <= 85 /\
       (status s = static -> Track.visualLeft params s == 15) /\
       (position s = distance params -> Track.visualLeft params s == 85))
    sts.
Proof.
  intros Hm Hd R.
  pose proof (Reachable_position_nonneg params cfgs sts Hm Hd R) as Hb.
  pose proof (Reachable_Shape params cfgs sts R) as Hs.
  apply Forall_forall. intros s Hin. rewrite Forall_forall in Hb, Hs.
  destruct (Hb s Hin) as [[_ Hp _] H0].
  destruct (Hs s Hin) as [_ _ Hzero _].
  destruct (progressFraction_bounds params s Hd H0 Hp) as [F0 [F1 [Fz Ft]]].
  unfold Track.visualLeft, Track.VISUAL_WIDTH_PERCENT,
    Track.VISUAL_PADDING_PERCENT.
  split; [lra |]. split; [lra |]. split.
  - intros Hst. destruct (Hzero Hst) as [Hpz _].
    rewrite Fz; [ring | rewrite Hpz; reflexivity].
  - intros Hpt. rewrite Ft; [ring | rewrite Hpt; reflexivity].
Qed.

Lemma track_marker_stays_on_track_witness :
  exists sts,
    runFrom INITIAL_PARAMS SURFACES [2 # 25; 2 # 25] = Some sts /\
    Forall
      (fun s =>
         15 <= Track.visualLeft INITIAL_PARAMS s /\
         Track.visualLeft INITIAL_PARAMS s <= 85)
      sts.
Proof.
  destruct (runFrom INITIAL_PARAMS SURFACES [2 # 25; 2 # 25]) as [sts |] eqn:E;
    [| discriminate].
  exists sts. split; [reflexivity |].
  assert (Reachable INITIAL_PARAMS SURFACES sts) as R.
  { apply runFrom_Reachable with [2 # 25; 2 # 25]; [| exact E].
    repeat constructor; discriminate. }
  pose proof (track_marker_stays_on_track INITIAL_PARAMS SURFACES sts
                eq_refl eq_refl R) as H.
  revert H. apply Forall_impl. intros s [H1 [H2 _]]. split; assumption.
Defined.

(** The face drawn on a body that a tick has left Stationary is never the
    happy one (nor the finished one): it is idle when nothing pushes, and
    neutral or sad when something does. *)
Theorem stuck_body_is_never_happy params cfgs surface dt s s' :
  status s = static ->
  isFinished s = false ->
  findSurface cfgs (id s) = Some surface ->
  stepState params cfgs dt s = Some s' ->
  status s' = static ->
  Track.emotion params surface s' <> happy /\
  Track.emotion params surface s' <> ecstatic /\
  (pushForce params s <= 0 -> Track.emotion params surface s' = idle) /\
  (0 < pushForce params s ->
   Track.emotion params surface s' = neutral \/
   Track.emotion params surface s' = sad).
Proof.
  intros Hst Hl F Hstep.
  rewrite (stepState_live params cfgs dt s surface Hl F) in Hstep.
  injection Hstep as <-.
  unfold advance. rewrite Hst.
  destruct (Qgt_bool (pushForce params s) (maxStaticFriction params surface))
    eqn:E; simpl; [discriminate |].
  intros _. unfold Track.emotion.
  cbn [status currentAppliedForce Status_eqb].
  change (Track.fStaticMax params surface)
    with (maxStaticFriction params surface).
  set (push := pushForce params s) in *.
  set (lim := maxStaticFriction params surface) in *.
  qprop.
  assert (Qgt_bool push (lim + (1 # 10)) = false) as Hnh
    by (apply Qlt_bool_false_iff; lra).
  rewrite Hnh.
  destruct (Qgt_bool push 0) eqn:Epos.
  - destruct (Qle_bool (Qabs (push - lim)) (1 # 10)).
    + split; [discriminate |]. split; [discriminate |].
      split; [| intros _; now left].
      intros Hle. apply Qgt_bool_iff in Epos. exfalso. lra.
    + split; [discriminate |]. split; [discriminate |].
      split; [| intros _; now right].
      intros Hle. apply Qgt_bool_iff in Epos. exfalso. lra.
  - apply Qlt_bool_false_iff in Epos.
    split; [discriminate |]. split; [discriminate |].
    split; [reflexivity |]. intros Hpos. exfalso. lra.
Qed.

Lemma stuck_body_is_never_happy_witness :
  exists s',
    stepState stuckParams SURFACES (2 # 25)
      (mkState NORMAL 0 0 0 0 false static 0 10) = Some s' /\
    Track.emotion stuckParams floorSurface s' <> happy.
Proof.
  destruct (stepState stuckParams SURFACES (2 # 25)
              (mkState NORMAL 0 0 0 0 false static 0 10)) as [s' |] eqn:E;
    [| discriminate].
  exists s'. split; [reflexivity |].
  destruct (stuck_body_is_never_happy stuckParams SURFACES floorSurface
              (2 # 25) (mkState NORMAL 0 0 0 0 false static 0 10) s'
              eq_refl eq_refl eq_refl E) as [H _].
  - injection E as <-. reflexivity.
  - exact H.
Defined.

(** * Coasting to a halt *)

Lemma decel_step (v k m d dt : Q) :
  0 < m -> 0 < k -> 0 < d -> d <= dt ->
  v + (0 - k) / m * dt <= v - k / m * d.
Proof.
  intros Hm Hk Hd Hdt.
  assert (0 < k / m) as Hc
    by (unfold Qdiv; apply Qmult_lt_0_compat;
        [exact Hk | now apply Qinv_lt_0_compat]).
  assert (k / m * d <= k / m * dt) as Hle
    by (apply Qmult_le_l; assumption).
  assert ((0 - k) / m * dt == - (k / m * dt)) as -> by (field; lra).
  lra.
Qed.

(** Once the push is off (the mode is not continuous and its condition has
    lapsed), a Moving body on a surface with kinetic friction finishes: if
    every tick has a step of at least [d] > 0 and the velocity is below
    (number of ticks) * (F_k / m) * d, then after those ticks the body is
    Arrived. *)
Theorem coasting_body_finishes params cfgs surface d dts :
  0 < mass params ->
  0 < kineticFriction params surface ->
  0 < d ->
  Forall (fun dt => d <= dt) dts ->
  forall s,
    status s = moving ->
    isFinished s = false ->
    findSurface cfgs (id s) = Some surface ->
    forceMode params <> Continuous ->
    isForceActive params s = false ->
    0 <= velocity s ->
    velocity s
      < inject_Z (Z.of_nat (List.length dts))
        * (kineticFriction params surface / mass params * d) ->
    exists s',
      stepMany params cfgs dts s = Some s' /\
      status s' = finished /\ isFinished s' = true.
Proof.
  intros Hm Hk Hd Hdts.
  set (kin := kineticFriction params surface) in *.
  set (c := kin / mass params * d).
  induction Hdts as [| dt rest Hdt _ IH];
    intros s Hst Hl F Hmode Hoff Hv Hgo.
  - change (inject_Z (Z.of_nat (List.length (@nil Q)))) with 0 in Hgo.
    assert (0 * c == 0) as Hz by ring.
    rewrite Hz in Hgo. lra.
  - simpl stepMany. rewrite (stepState_live params cfgs dt s surface Hl F).
    assert (pushForce params s = 0) as Hpush
      by (unfold pushForce; now rewrite Hoff).
    pose proof (decel_step (velocity s) kin (mass params) d dt Hm Hk Hd Hdt)
      as Hdec.
    fold c in Hdec.
    set (v1 := velocity s + (0 - kin) / mass params * dt) in *.
    assert (Qle_bool 0 kin = true) as Hle
      by (apply Qle_bool_iff; lra).
    assert (advance params surface dt s =
            let stopped := Qle_bool v1 0 in
            let newVel := if stopped then 0 else v1 in
            let newPos := position s + newVel * dt in
            let arrived := Qge_bool newPos (distance params) in
            let newStatus :=
              if arrived then finished
              else if stopped then finished else moving in
            {| id := id s;
               status := newStatus;
               acceleration := if stopped then 0 else (0 - kin) / mass params;
               velocity := newVel;
               position := if arrived then distance params else newPos;
               timeElapsed := timeElapsed s + dt;
               isFinished := Status_eqb newStatus finished;
               frictionForce := kin;
               currentAppliedForce := 0 |}) as Hadv.
    { unfold advance. rewrite Hpush, Hst. fold kin. fold v1.
      rewrite Hle, andb_true_r. reflexivity. }
    rewrite Hadv. clear Hadv. cbv zeta.
    destruct (Qle_bool v1 0) eqn:Estop.
    + eexists. split.
      * apply stepMany_finished. simpl. destruct (Qge_bool _ _); reflexivity.
      * simpl. destruct (Qge_bool _ _); split; reflexivity.
    + apply Qle_bool_false_iff in Estop.
      destruct (Qge_bool (position s + v1 * dt) (distance params)) eqn:Earr.
      * eexists. split; [apply stepMany_finished; reflexivity |].
        split; reflexivity.
      * apply IH; simpl; try reflexivity; try assumption; try lra.
        -- unfold isForceActive in *. simpl.
           destruct (forceMode params); try congruence.
           ++ qprop. apply Qlt_bool_false_iff.
              assert (d <= dt) by assumption. lra.
           ++ qprop. apply Qlt_bool_false_iff.
              assert (d <= dt) by assumption. lra.
           ++ qprop. apply Qlt_bool_false_iff.
              assert (0 <= v1 * dt) by (apply Qmult_le_0_compat; lra).
              lra.
        -- change (List.length (dt :: rest)) with (S (List.length rest)) in Hgo.
           rewrite Nat2Z.inj_succ, <- Z.add_1_r, inject_Z_plus in Hgo.
           change (inject_Z 1) with 1 in Hgo. fold c in Hgo. fold c. lra.
Qed.

Lemma coasting_body_finishes_witness :
  exists s',
    stepMany timedParams SURFACES [1]  coastingBody = Some s' /\
    status s' = finished /\ isFinished s' = true.
Proof.
  apply (coasting_body_finishes timedParams SURFACES floorSurface 1 [1]).
  - reflexivity.
  - reflexivity.
  - reflexivity.
  - repeat constructor; discriminate.
  - reflexivity.
  - reflexivity.
  - reflexivity.
  - discriminate.
  - reflexivity.
  - discriminate.
  - reflexivity.
Defined.


(** * Properties of the binary64 model *)

(** ** Comparisons of binary64 numbers *)

Lemma SFcompare_Eq_sym (a b : spec_float) :
  SFcompare a b = Some Eq -> SFcompare b a = Some Eq.
Proof.
  destruct a as [sa | sa | | sa ma ea], b as [sb | sb | | sb mb eb]; simpl;
    try discriminate; try reflexivity;
    try (destruct sa; discriminate); try (destruct sb; discriminate).
  - destruct sa, sb; intros H; try discriminate; reflexivity.
  - change (Pos.compare_cont Eq ma mb) with (Pos.compare ma mb).
    change (Pos.compare_cont Eq mb ma) with (Pos.compare mb ma).
    rewrite (Z.compare_antisym ea eb), (Pos.compare_antisym ma mb).
    destruct sa, sb; try discriminate;
      destruct (Z.compare ea eb); simpl; try discriminate;
      destruct (Pos.compare ma mb); simpl; try discriminate; reflexivity.
Qed.

(** [a === b] excludes [b < a]. *)
Lemma float_eqb_not_ltb (a b : float) :
  PrimFloat.eqb a b = true -> PrimFloat.ltb b a = false.
Proof.
  rewrite eqb_spec, ltb_spec. unfold SFeqb, SFltb.
  destruct (SFcompare (Prim2SF a) (Prim2SF b)) as [[| |] |] eqn:E;
    try discriminate.
  intros _. now rewrite (SFcompare_Eq_sym _ _ E).
Qed.

(** ** Breakaway (claim C5) *)

Lemma B64_stepState_live params cfgs dt s surface :
  B64.isFinished s = false ->
  B64.findSurface cfgs (B64.id s) = Some surface ->
  B64.stepState params cfgs dt s = Some (B64.advance params surface dt s).
Proof. intros H F. unfold B64.stepState. now rewrite H, F. Qed.

(** C5: a Stationary body becomes Moving on a tick if and only if the
    effective applied force strictly exceeds the static limit
    mu_s * (mass * g), the binary64 product the code computes; a force equal
    to that limit leaves it Stationary. *)
Theorem breakaway_iff_above_binary64_static_limit
    params cfgs surface dt s :
  B64.status s = static ->
  B64.isFinished s = false ->
  B64.findSurface cfgs (B64.id s) = Some surface ->
  exists s',
    B64.stepState params cfgs dt s = Some s' /\
    (B64.status s' = moving <->
     (B64.staticFrictionCoeff surface * (B64.mass params * 9.81)
      <? B64.pushForce params s)%float = true) /\
    (B64.status s' <> moving -> B64.status s' = static) /\
    ((B64.pushForce params s
      =? B64.staticFrictionCoeff surface * (B64.mass params * 9.81))%float
     = true ->
     B64.status s' = static).
Proof.
  intros Hst Hl F.
  exists (B64.advance params surface dt s).
  split; [now apply B64_stepState_live |].
  unfold B64.advance. rewrite Hst.
  change (B64.maxStaticFriction params surface)
    with (B64.staticFrictionCoeff surface * (B64.mass params * 9.81))%float.
  set (lim := (B64.staticFrictionCoeff surface * (B64.mass params * 9.81))%float).
  destruct (lim <? B64.pushForce params s)%float eqn:E; simpl.
  - split; [split; reflexivity |]. split; [congruence |].
    intros Heq. apply float_eqb_not_ltb in Heq. congruence.
  - split; [split; discriminate |]. split; reflexivity.
Qed.

Lemma breakaway_iff_above_binary64_static_limit_witness :
  exists s',
    B64.stepState (B64.mkParams 10 500 39.24000000000001 Continuous 5 100)
      B64.SURFACES 0.08
      (B64.mkState NORMAL 0 0 0 0 false static 0 39.24000000000001)
    = Some s' /\
    B64.status s' = static.
Proof.
  destruct (breakaway_iff_above_binary64_static_limit
              (B64.mkParams 10 500 39.24000000000001 Continuous 5 100)
              B64.SURFACES
              (B64.mkSurface NORMAL 0.4 0.3 (0.3, 0.6)%float
                 "bg-slate-300 border-slate-500"
                 "Standard floor surface like wood or tile.")
              0.08
              (B64.mkState NORMAL 0 0 0 0 false static 0 39.24000000000001)
              eq_refl eq_refl eq_refl) as [s' [H1 [_ [_ H4]]]].
  exists s'. split; [exact H1 |]. apply H4. reflexivity.
Defined.

(** The limit is the rounded product, not the exact one.  With 7 kg on the
    rough surface the product is 48.068999999999996, so a push of 48.069 N,
    the exact mu_s * m * g, moves the body; with 10 kg on the floor the
    product is 39.240000000000009, so a push of that size, above the exact
    39.24, leaves it Stationary. *)
Example breakaway_at_the_rounded_limit :
  option_map B64.status
    (B64.stepState (B64.mkParams 7 500 48.069 Continuous 5 100)
       B64.SURFACES 0.08
       (B64.mkState ROUGH 0 0 0 0 false static 0 48.069))
  = Some moving /\
  option_map B64.status
    (B64.stepState (B64.mkParams 10 500 39.24000000000001 Continuous 5 100)
       B64.SURFACES 0.08
       (B64.mkState NORMAL 0 0 0 0 false static 0 39.24000000000001))
  = Some static.
Proof. split; vm_compute; reflexivity. Qed.

(** ** Adjusting the kinetic coefficient (claim C4) *)

(** C4, as the code has it: the adjustment never fails and does not look at
    the range.  For every surface and every new value it stores the value as
    the kinetic coefficient of the named surface and, as its static
    coefficient, the binary64 sum of the value and 0.1 rounded to two
    decimals the way [toFixed(2)] and [parseFloat] do; the other surfaces,
    and every range, are left as they were. *)
Theorem handleFrictionChange_sets type0 newKinetic prev :
  Forall2 (B64.adjusted type0 newKinetic) prev
    (B64.handleFrictionChange type0 newKinetic prev).
Proof.
  unfold B64.handleFrictionChange.
  induction prev as [| s rest IH]; simpl; constructor; [| exact IH].
  unfold B64.adjusted.
  destruct (SurfaceType_eqb (B64.type s) type0) eqn:E; simpl.
  - apply SurfaceType_eqb_eq in E. repeat split; congruence.
  - assert (B64.type s <> type0) as Hne
      by (intros Ht; apply SurfaceType_eqb_eq in Ht; congruence).
    repeat split; try reflexivity; contradiction.
Qed.

(** The rounding of the static coefficient at some values: the sum is
    rounded to binary64 before [toFixed] sees it, so 0.375 gives 0.47 and
    2.675 gives 2.77, where the exact sums would give 0.48 and 2.78. *)
Example static_coefficient_rounding :
  (B64.toFixed2 (0.3 + 0.1) =? 0.4)%float = true /\
  (B64.toFixed2 (0.5 + 0.1) =? 0.6)%float = true /\
  (B64.toFixed2 (0.375 + 0.1) =? 0.47)%float = true /\
  (B64.toFixed2 (2.675 + 0.1) =? 2.77)%float = true /\
  (B64.toFixed2 (4600000000000000 + 0.1) =? 4600000000000000)%float = true.
Proof. repeat split; vm_compute; reflexivity. Qed.

(** C4 as stated fails: 0.5 is outside the range [0.1, 0.3] of ice, and the
    adjustment stores it all the same, with 0.6 as static coefficient. *)
Lemma handleFrictionChange_out_of_range_stored :
  (0.5 <=? 0.3)%float = false /\
  hd_error B64.SURFACES =
    Some (B64.mkSurface ICE 0.2 0.1 (0.1, 0.3)%float
            "bg-cyan-200 border-cyan-400"
            "Very smooth surface with minimal resistance.") /\
  hd_error (B64.handleFrictionChange ICE 0.5 B64.SURFACES) =
    Some (B64.mkSurface ICE 0.6 0.5 (0.1, 0.3)%float
            "bg-cyan-200 border-cyan-400"
            "Very smooth surface with minimal resistance.") /\
  (0.5 =? 0.1)%float = false /\ (0.6 =? 0.2)%float = false.
Proof.
  split; [reflexivity |]. split; [reflexivity |].
  split; [vm_compute; reflexivity |]. split; reflexivity.
Qed.

(** ** The surface table in binary64 *)

Lemma B64_adjusted_entry type0 newKinetic prev s' :
  In s' (B64.handleFrictionChange type0 newKinetic prev) ->
  B64.type s' = type0 ->
  B64.kineticFrictionCoeff s' = newKinetic /\
  B64.staticFrictionCoeff s' = B64.toFixed2 (newKinetic + 0.1)%float.
Proof.
  unfold B64.handleFrictionChange. intros Hin Ht.
  apply in_map_iff in Hin. destruct Hin as [s [Hs _]].
  destruct (SurfaceType_eqb (B64.type s) type0) eqn:E.
  - subst s'. split; reflexivity.
  - subst s'. apply SurfaceType_eqb_eq in Ht. congruence.
Qed.

Lemma slider_positions_checked :
  forallb B64.staticIsTenthAbove (map Z.of_nat (seq 10 91)) = true.
Proof. vm_compute. reflexivity. Qed.

(** For every two-decimal kinetic value from 0.10 to 1.00 (the positions
    of the slider over the three ranges) an adjustment leaves the adjusted
    surface with a static coefficient that is the two-decimal value 0.1
    higher, and strictly above the kinetic coefficient. *)
Theorem adjusted_static_above_kinetic type0 (i : Z) prev s' :
  (10 <= i <= 100)%Z ->
  In s' (B64.handleFrictionChange type0 (B64.twoDecimals i) prev) ->
  B64.type s' = type0 ->
  B64.kineticFrictionCoeff s' = B64.twoDecimals i /\
  (B64.staticFrictionCoeff s' =? B64.twoDecimals (i + 10))%float = true /\
  (B64.kineticFrictionCoeff s' <? B64.staticFrictionCoeff s')%float = true.
Proof.
  intros Hi Hin Ht.
  destruct (B64_adjusted_entry _ _ _ _ Hin Ht) as [-> ->].
  pose proof slider_positions_checked as Hall.
  rewrite forallb_forall in Hall.
  assert (B64.staticIsTenthAbove i = true) as Hchk.
  { apply Hall. apply in_map_iff. exists (Z.to_nat i).
    split; [lia |]. apply in_seq. lia. }
  unfold B64.staticIsTenthAbove in Hchk. apply andb_true_iff in Hchk.
  destruct Hchk as [H1 H2].
  split; [reflexivity | split; assumption].
Qed.

Lemma adjusted_static_above_kinetic_witness :
  let s' :=
    B64.mkSurface NORMAL 0.55 0.45 (0.3, 0.6)%float
      "bg-slate-300 border-slate-500"
      "Standard floor surface like wood or tile." in
  In s' (B64.handleFrictionChange NORMAL (B64.twoDecimals 45) B64.SURFACES) /\
  (B64.kineticFrictionCoeff s' <? B64.staticFrictionCoeff s')%float = true.
Proof.
  intros s'.
  assert (In s' (B64.handleFrictionChange NORMAL (B64.twoDecimals 45)
                   B64.SURFACES)) as Hin
    by (right; left; vm_compute; reflexivity).
  split; [exact Hin |].
  apply (adjusted_static_above_kinetic NORMAL 45 B64.SURFACES s');
    [lia | exact Hin | reflexivity].
Defined.

(** Looking a surface up after an adjustment: the adjusted type yields the
    entry found before with the new kinetic coefficient and the rounded
    binary64 sum as static coefficient; any other type yields the entry
    found before, unchanged; a type that was missing stays missing. *)
Theorem findSurface_after_adjustment type0 newKinetic prev i :
  B64.findSurface (B64.handleFrictionChange type0 newKinetic prev) i =
  match B64.findSurface prev i with
  | None => None
  | Some s =>
      if SurfaceType_eqb i type0
      then Some {| B64.type := B64.type s;
                   B64.staticFrictionCoeff :=
                     B64.toFixed2 (newKinetic + 0.1)%float;
                   B64.kineticFrictionCoeff := newKinetic;
                   B64.frictionRange := B64.frictionRange s;
                   B64.color := B64.color s;
                   B64.description := B64.description s |}
      else Some s
  end.
Proof.
  unfold B64.findSurface, B64.handleFrictionChange.
  induction prev as [| s rest IH]; simpl; [reflexivity |].
  destruct (SurfaceType_eqb (B64.type s) type0) eqn:Et; simpl;
    destruct (SurfaceType_eqb (B64.type s) i) eqn:Ei; try exact IH.
  - apply SurfaceType_eqb_eq in Et, Ei. subst.
    assert (SurfaceType_eqb (B64.type s) (B64.type s) = true) as ->
      by now apply SurfaceType_eqb_eq.
    reflexivity.
  - apply SurfaceType_eqb_eq in Ei. subst. rewrite Et. reflexivity.
Qed.
